(** * s3transport: an http.RoundTripper that dials resolved IPs

    Shallow embedding of [file/s3file/s3transport/transport.go] and proofs
    of the properties its specification states about it.

    Pointers are locations into typed stores (requests, URLs, transports,
    TLS configurations, bodies), so that aliasing and in-place mutation
    are visible.  Go's run-time panics (nil dereference, index out of
    range, [rand.Intn] on a non-positive bound) are an explicit outcome.
    The collaborators the package does not define itself (the resolver, the
    random source, the clock, the delegated transport's own RoundTrip, and
    [net.IP.String]) are the fields of a class, [Env]. *)

From Stdlib Require Import ZArith String Ascii List Lia DecimalString.
From stdpp Require Import base gmap strings list fin_maps.

Local Open Scope string_scope.

(** ** Byte strings, as [net/url] slices them *)

Module Strings.

(** [strings.LastIndexByte]: index of the last occurrence of [c], or -1. *)
Fixpoint LastIndexByte (s : string) (c : ascii) : Z :=
  match s with
  | EmptyString => (-1)%Z
  | String a rest =>
      let r := LastIndexByte rest c in
      if (0 <=? r)%Z then (1 + r)%Z
      else if Ascii.eqb a c then 0%Z else (-1)%Z
  end.

(** [s[i:]] and [s[:i]] for an index already known to be in range. *)
Definition slice_from (s : string) (i : Z) : string :=
  substring (Z.to_nat i) (String.length s - Z.to_nat i) s.

Definition slice_to (s : string) (i : Z) : string :=
  substring 0 (Z.to_nat i) s.

Fixpoint all_bytes (p : ascii → bool) (s : string) : bool :=
  match s with
  | EmptyString => true
  | String a rest => p a && all_bytes p rest
  end.

Definition HasPrefix (s pre : string) : bool := String.prefix pre s.

Definition HasSuffix (s suf : string) : bool :=
  (String.length suf <=? String.length s)%nat
  && String.eqb (substring (String.length s - String.length suf)
                           (String.length suf) s) suf.

End Strings.

(** ** net/url: the part of [URL] that [Hostname] reads *)

Module url.
Import Strings.

Record URL := mkURL {
  Scheme : string;
  Host : string;       (* host or host:port *)
  Path : string;
  RawQuery : string
}.

Definition is_digit (b : ascii) : bool :=
  (48 <=? nat_of_ascii b)%nat && (nat_of_ascii b <=? 57)%nat.

(** [validOptionalPort]: empty, or a colon followed by digits only. *)
Definition validOptionalPort (port : string) : bool :=
  match port with
  | EmptyString => true
  | String c rest => if Ascii.eqb c ":" then all_bytes is_digit rest else false
  end.

(** [splitHostPort]: cut at the last colon when what follows is a valid
    port, then drop the square brackets of an IPv6 literal. *)
Definition splitHostPort (hostPort : string) : string * string :=
  let colon := LastIndexByte hostPort ":" in
  let '(host, port) :=
    if negb (colon =? -1)%Z && validOptionalPort (slice_from hostPort colon)
    then (slice_to hostPort colon, slice_from hostPort (colon + 1))
    else (hostPort, "") in
  let host :=
    if HasPrefix host "[" && HasSuffix host "]"
    then substring 1 (String.length host - 2) host
    else host in
  (host, port).

(** What [splitHostPort] makes of a host once the port is cut off. *)
Definition unbracket (host : string) : string :=
  if HasPrefix host "[" && HasSuffix host "]"
  then substring 1 (String.length host - 2) host
  else host.

Definition Hostname (u : URL) : string := fst (splitHostPort (Host u)).
Definition Port (u : URL) : string := snd (splitHostPort (Host u)).

Definition set_Host (u : URL) (h : string) : URL :=
  {| Scheme := Scheme u; Host := h; Path := Path u; RawQuery := RawQuery u |}.

End url.

(** ** Errors, as Go's [error] values with [%w] wrapping *)

Inductive error :=
  | ErrOpaque (msg : string)                  (* produced by a collaborator *)
  | ErrWrapped (msg : string) (cause : error). (* fmt.Errorf(... %w ...) *)

Definition Error (e : error) : string :=
  match e with ErrOpaque m => m | ErrWrapped m _ => m end.

Definition Unwrap (e : error) : option error :=
  match e with ErrOpaque _ => None | ErrWrapped _ c => Some c end.

(** [fmt.Errorf(prefix + "%w", err)] *)
Definition Errorf_w (prefix : string) (err : error) : error :=
  ErrWrapped (prefix ++ Error err) err.

(** ** Pointers and the values they point to *)

Definition loc := positive.

(** [net.IP] is a byte slice. *)
Definition IP := list N.

(** [time.Duration] is an int64 count of nanoseconds. *)
Definition wrap64 (z : Z) : Z := ((z + 2 ^ 63) mod 2 ^ 64 - 2 ^ 63)%Z.
Definition int64 (z : Z) : Prop := (- 2 ^ 63 ≤ z < 2 ^ 63)%Z.
Definition Second : Z := 1000000000%Z.

Module tls.
Record Config := mkConfig { ServerName : string }.
Definition set_ServerName (c : Config) (h : string) : Config :=
  {| ServerName := h |}.
End tls.

Module http.

Record Transport := mkTransport {
  DialTimeout : Z;
  DialKeepAlive : Z;
  ForceAttemptHTTP2 : bool;
  MaxIdleConns : Z;
  MaxIdleConnsPerHost : Z;
  IdleConnTimeout : Z;
  TLSClientConfig : option loc;     (* *tls.Config, possibly nil *)
  TLSHandshakeTimeout : Z;
  ExpectContinueTimeout : Z
}.

Definition set_TLSClientConfig (t : Transport) (c : option loc) : Transport :=
  {| DialTimeout := DialTimeout t; DialKeepAlive := DialKeepAlive t;
     ForceAttemptHTTP2 := ForceAttemptHTTP2 t; MaxIdleConns := MaxIdleConns t;
     MaxIdleConnsPerHost := MaxIdleConnsPerHost t;
     IdleConnTimeout := IdleConnTimeout t; TLSClientConfig := c;
     TLSHandshakeTimeout := TLSHandshakeTimeout t;
     ExpectContinueTimeout := ExpectContinueTimeout t |}.

Record Request := mkRequest {
  Method : string;
  URL : option loc;                 (* *url.URL *)
  Header : list (string * string);
  Host : string;
  Body : option loc                 (* io.ReadCloser, nil when absent *)
}.

Definition set_Host (r : Request) (h : string) : Request :=
  {| Method := Method r; URL := URL r; Header := Header r; Host := h;
     Body := Body r |}.

Definition set_URL (r : Request) (u : option loc) : Request :=
  {| Method := Method r; URL := u; Header := Header r; Host := Host r;
     Body := Body r |}.

Record Response := mkResponse { StatusCode : Z; RespBody : option loc }.

End http.

(** ** The expiring map of host to IPs *)

Module expiring.

Record entry := mkEntry { values : gset IP; lastSeen : Z }.

Record expiringMap := mkMap { elems : gmap string entry }.

Definition empty : expiringMap := {| elems := ∅ |}.

Definition current (m : expiringMap) (key : string) : gset IP :=
  match elems m !! key with Some e => values e | None => ∅ end.

(** Modelled from the spec: [expiringMap.AddAndGet] is defined in a file of
    the package other than transport.go.  It unions [newValues] into the
    entry for [key] (creating the entry if absent), deduplicates, refreshes
    [lastSeen] to now, and returns the full current value set for [key].
    The whole call runs under the map's lock, so it is one atomic step. *)
Definition AddAndGet (now : Z) (key : string) (newValues : list IP)
    (m : expiringMap) : list IP * expiringMap :=
  let merged := current m key ∪ list_to_set newValues in
  (elements merged,
   {| elems := <[key := {| values := merged; lastSeen := now |}]> (elems m) |}).

(** Modelled from the spec: one pass of the periodic sweep, also defined
    outside transport.go.  It removes every entry whose [lastSeen] is older
    than the expiry window. *)
Definition expireOnce (expireAfter now : Z) (m : expiringMap) : expiringMap :=
  {| elems := filter (λ kv, (now - expireAfter ≤ lastSeen kv.2)%Z) (elems m) |}.

(** A caller of [AddAndGet], with the time its call is served at. *)
Record call := mkCall { at_time : Z; for_key : string; adds : list IP }.

Definition serve (m : expiringMap) (c : call) : expiringMap :=
  snd (AddAndGet (at_time c) (for_key c) (adds c) m).

(** Concurrent callers hold the lock one at a time: any interleaving is
    the calls served in some order. *)
Definition serve_all (cs : list call) (m : expiringMap) : expiringMap :=
  fold_left serve cs m.

End expiring.

(** ** The world outside the transport, and the transport's own state *)

Section Model.

(** [E] is whatever the collaborators keep to themselves: the network, the
    seed of the random source, the clock. *)
Context {E : Type}.

Record World := mkWorld {
  requests : gmap loc http.Request;
  urls : gmap loc url.URL;
  transports : gmap loc http.Transport;
  tlsConfigs : gmap loc tls.Config;
  closed : gset loc;                (* bodies whose Close has been called *)
  ext : E
}.

Definition with_requests (f : gmap loc http.Request → gmap loc http.Request)
    (w : World) : World :=
  {| requests := f (requests w); urls := urls w; transports := transports w;
     tlsConfigs := tlsConfigs w; closed := closed w; ext := ext w |}.

Definition with_urls (f : gmap loc url.URL → gmap loc url.URL)
    (w : World) : World :=
  {| requests := requests w; urls := f (urls w); transports := transports w;
     tlsConfigs := tlsConfigs w; closed := closed w; ext := ext w |}.

Definition with_transports
    (f : gmap loc http.Transport → gmap loc http.Transport) (w : World) : World :=
  {| requests := requests w; urls := urls w; transports := f (transports w);
     tlsConfigs := tlsConfigs w; closed := closed w; ext := ext w |}.

Definition with_tlsConfigs (f : gmap loc tls.Config → gmap loc tls.Config)
    (w : World) : World :=
  {| requests := requests w; urls := urls w; transports := transports w;
     tlsConfigs := f (tlsConfigs w); closed := closed w; ext := ext w |}.

Definition with_closed (f : gset loc → gset loc) (w : World) : World :=
  {| requests := requests w; urls := urls w; transports := transports w;
     tlsConfigs := tlsConfigs w; closed := f (closed w); ext := ext w |}.

Definition with_ext (e : E) (w : World) : World :=
  {| requests := requests w; urls := urls w; transports := transports w;
     tlsConfigs := tlsConfigs w; closed := closed w; ext := e |}.

(** [type T struct]; the mutex lives in the sequencing of the calls. *)
Record T := mkT {
  factory : World → loc * World;    (* func() *http.Transport *)
  hostRTs : gmap string loc;        (* map[string]http.RoundTripper *)
  hostIPs : expiring.expiringMap
}.

(** Calls that leave the transport, in the order they are made. *)
Inductive Event :=
  | CallLookupIP (host : string)
  | CallAddAndGet (key : string) (newValues : list IP)
  | CallFactory (host : string) (made : loc)
  | CallClose (body : loc)
  | CallRoundTrip (rt hostReq : loc).

Record State := mkState {
  self : T;
  world : World;
  calls : list Event     (* ghost: not read by the code *)
}.

(** What transport.go takes from the rest of its package and from the
    standard library. *)
Class Env := {
  (* const expireAfter, expireLoopEvery: declared next to expiringMap *)
  expireAfter : Z;
  expireLoopEvery : Z;
  (* defaultResolver.LookupIP *)
  LookupIP : string → E → (list IP + error) * E;
  (* the generator behind math/rand.Intn; its draw is reduced into range *)
  rand_draw : Z → E → Z * E;
  (* time.Now, in nanoseconds *)
  time_Now : E → Z * E;
  (* net.IP.String *)
  IP_String : IP → string;
  (* RoundTrip of http.Transport *)
  Transport_RoundTrip :
    loc → loc → World → (option http.Response * option error) * World
}.

Context `{Env}.

(** *** A state monad with panics *)

Inductive outcome (A : Type) :=
  | Done (a : A) (s : State)
  | Panic (why : string).
Arguments Done {A} a s.
Arguments Panic {A} why.

Definition M (A : Type) : Type := State → outcome A.

#[local] Instance M_ret : MRet M := λ A a s, Done a s.
#[local] Instance M_bind : MBind M := λ A B f m s,
  match m s with
  | Done a s' => f a s'
  | Panic why => Panic why
  end.

Definition panic {A} (why : string) : M A := λ _, Panic why.

Definition get_self : M T := λ s, Done (self s) s.
Definition get_world : M World := λ s, Done (world s) s.

Definition modify_world (f : World → World) : M unit := λ s,
  Done tt {| self := self s; world := f (world s); calls := calls s |}.

Definition in_world {A} (f : World → A * World) : M A := λ s,
  let '(a, w) := f (world s) in
  Done a {| self := self s; world := w; calls := calls s |}.

Definition outside {A} (f : E → A * E) : M A :=
  in_world (λ w, let '(a, e) := f (ext w) in (a, with_ext e w)).

Definition modify_self (f : T → T) : M unit := λ s,
  Done tt {| self := f (self s); world := world s; calls := calls s |}.

Definition record (e : Event) : M unit := λ s,
  Done tt {| self := self s; world := world s; calls := calls s ++ [e] |}.

(** Dereference: a pointer that is nil or dangling panics. *)
Definition deref {A} (heap : World → gmap loc A) (p : loc) : M A := λ s,
  match heap (world s) !! p with
  | Some v => Done v s
  | None => Panic "invalid memory address or nil pointer dereference"
  end.

Definition deref_opt {A} (heap : World → gmap loc A) (p : option loc) : M A :=
  match p with
  | Some q => deref heap q
  | None => panic "invalid memory address or nil pointer dereference"
  end.

(** [new]: a location no live object of that type has. *)
Definition new_loc {A} (heap : gmap loc A) : loc := fresh (dom heap).

Definition alloc_url (u : url.URL) : M loc :=
  in_world (λ w, let p := new_loc (urls w) in (p, with_urls <[p := u]> w)).

Definition alloc_request (r : http.Request) : M loc :=
  in_world (λ w, let p := new_loc (requests w) in
                 (p, with_requests <[p := r]> w)).

Definition alloc_tlsConfig (c : tls.Config) : M loc :=
  in_world (λ w, let p := new_loc (tlsConfigs w) in
                 (p, with_tlsConfigs <[p := c]> w)).

(** *** Standard library calls made by transport.go *)

(** [Clone] of [http.Request]: a new Request with the same fields, whose URL
    is a copy of the original's. *)
Definition Request_Clone (req : loc) : M loc :=
  r ← deref requests req;
  u2 ← match http.URL r with
       | None => mret None
       | Some u => v ← deref urls u; q ← alloc_url v; mret (Some q)
       end;
  alloc_request (http.set_URL r u2).

(** [rand.Intn] panics unless [0 < n], and returns a value in [0, n). *)
Definition rand_Intn (n : Z) : M Z :=
  if (n <=? 0)%Z then panic "invalid argument to Intn"
  else r ← outside (rand_draw n); mret (r mod n)%Z.

(** [ips[i]], bounds-checked. *)
Definition index (ips : list IP) (i : Z) : M IP :=
  if (i <? 0)%Z then panic "index out of range"
  else match ips !! Z.to_nat i with
       | Some ip => mret ip
       | None => panic "index out of range"
       end.

(** [req.Body.Close()], its error discarded. *)
Definition Body_Close (body : loc) : M unit :=
  record (CallClose body);;
  modify_world (with_closed (λ c, {[body]} ∪ c)).

(** [t.hostIPs.AddAndGet(host, ips)] at the clock's current time. *)
Definition hostIPs_AddAndGet (host : string) (ips : list IP) : M (list IP) :=
  record (CallAddAndGet host ips);;
  now ← outside time_Now;
  t ← get_self;
  let '(all, m) := expiring.AddAndGet now host ips (hostIPs t) in
  modify_self (λ t, {| factory := factory t; hostRTs := hostRTs t;
                       hostIPs := m |});;
  mret all.

(** *** transport.go *)

(** [func (t *T) hostRoundTripper(host string) http.RoundTripper] *)
Definition hostRoundTripper (host : string) : M loc :=
  t ← get_self;
  match hostRTs t !! host with
  | Some rt => mret rt
  | None =>
      transport ← in_world (factory t);
      record (CallFactory host transport);;
      tr ← deref transports transport;
      match http.TLSClientConfig tr with
      | None =>
          c ← alloc_tlsConfig (tls.mkConfig "");
          modify_world (with_transports
            <[transport := http.set_TLSClientConfig tr (Some c)]>)
      | Some _ => mret tt
      end;;
      tr ← deref transports transport;
      cfg ← deref_opt tlsConfigs (http.TLSClientConfig tr);
      match http.TLSClientConfig tr with
      | Some c => modify_world (with_tlsConfigs
                    <[c := tls.set_ServerName cfg host]>)
      | None => mret tt
      end;;
      modify_self (λ t, {| factory := factory t;
                           hostRTs := <[host := transport]> (hostRTs t);
                           hostIPs := hostIPs t |});;
      mret transport
  end.

(** Lines 65 to 70 of [RoundTrip]: merge the resolved IPs into the cache,
    clone the request, and point the clone at one of the IPs.  Returns the
    clone. *)
Definition rewrite_request (req : loc) (host : string) (ips : list IP)
    : M loc :=
  ips ← hostIPs_AddAndGet host ips;
  hostReq ← Request_Clone req;
  r ← deref requests hostReq;
  modify_world (with_requests <[hostReq := http.set_Host r host]>);;
  r ← deref requests hostReq;
  i ← rand_Intn (Z.of_nat (length ips));
  ip ← index ips i;
  match http.URL r with
  | Some u =>
      v ← deref urls u;
      modify_world (with_urls <[u := url.set_Host v (IP_String ip)]>)
  | None => panic "invalid memory address or nil pointer dereference"
  end;;
  mret hostReq.

(** [func (t *T) RoundTrip(req)], returning a response and an error *)
Definition RoundTrip (req : loc) : M (option http.Response * option error) :=
  r ← deref requests req;
  u ← deref_opt urls (http.URL r);
  let host := url.Hostname u in
  record (CallLookupIP host);;
  res ← outside (LookupIP host);
  match res with
  | inr err =>
      r ← deref requests req;
      match http.Body r with
      | Some body => Body_Close body
      | None => mret tt
      end;;
      mret (None, Some (Errorf_w "s3transport: lookup ip: " err))
  | inl ips =>
      hostReq ← rewrite_request req host ips;
      rt ← hostRoundTripper host;
      record (CallRoundTrip rt hostReq);;
      in_world (Transport_RoundTrip rt hostReq)
  end.

(** [func New(factory func() *http.Transport) *T] *)
Definition New (factory : World → loc * World) (w : World) : State :=
  {| self := {| factory := factory; hostRTs := ∅; hostIPs := expiring.empty |};
     world := w; calls := [] |}.

(** [httpTransport]: the template the default factory clones.  Its
    TLSClientConfig points at an empty [tls.Config]; the two timeouts taken
    from [http.DefaultTransport] are 10s and 1s there. *)
Definition httpTransport_TLSClientConfig : loc := 1%positive.

Definition httpTransport : http.Transport :=
  {| http.DialTimeout := 30 * Second;
     http.DialKeepAlive := 30 * Second;
     http.ForceAttemptHTTP2 := false;
     http.MaxIdleConns := 200;
     http.MaxIdleConnsPerHost := 4;
     http.IdleConnTimeout := wrap64 (expireAfter + wrap64 (2 * expireLoopEvery));
     http.TLSClientConfig := Some httpTransport_TLSClientConfig;
     http.TLSHandshakeTimeout := 10 * Second;
     http.ExpectContinueTimeout := 1 * Second |}%Z.

(** [Clone] of [http.Transport], on a receiver with fields [t] whose
    TLSClientConfig points at [cfg] (or is nil): a new Transport with the
    same fields and, when there is a configuration, a copy of it. *)
Definition Transport_Clone (t : http.Transport) (cfg : option tls.Config)
    (w : World) : loc * World :=
  let '(c2, w1) :=
    match cfg with
    | Some c => let q := new_loc (tlsConfigs w) in
                (Some q, with_tlsConfigs <[q := c]> w)
    | None => (None, w)
    end in
  let p := new_loc (transports w1) in
  (p, with_transports <[p := http.set_TLSClientConfig t c2]> w1).

(** [Default = New(httpTransport.Clone)]; nothing writes to [httpTransport]
    after package initialisation, so the method value is its fields. *)
Definition Default_factory : World → loc * World :=
  Transport_Clone httpTransport (Some (tls.mkConfig "")).

Definition Default (w : World) : State := New Default_factory w.

(** *** Vocabulary of the statements *)

(** The name a transport verifies server certificates against. *)
Definition ServerName_of (w : World) (rt : loc) : option string :=
  tr ← transports w !! rt;
  c ← http.TLSClientConfig tr;
  cfg ← tlsConfigs w !! c;
  Some (tls.ServerName cfg).

(** The contract [New] documents for its factory: every call returns a
    separate Transport, and the Transports do not share a TLSClientConfig.
    A call leaves the objects that exist alone. *)
Definition factory_separate (f : World → loc * World) : Prop :=
  ∀ w, let '(p, w') := f w in
    transports w !! p = None
    ∧ (∀ q, q ≠ p → transports w' !! q = transports w !! q)
    ∧ (∀ c, is_Some (tlsConfigs w !! c) → tlsConfigs w' !! c = tlsConfigs w !! c)
    ∧ requests w' = requests w ∧ urls w' = urls w ∧ closed w' = closed w
    ∧ ∃ tr, transports w' !! p = Some tr
        ∧ match http.TLSClientConfig tr with
          | Some c => tlsConfigs w !! c = None ∧ is_Some (tlsConfigs w' !! c)
          | None => True
          end.

(** The least a factory must do for a lookup not to panic: return a
    Transport that exists, whose TLSClientConfig is nil or exists. *)
Definition factory_allocates (f : World → loc * World) : Prop :=
  ∀ w, ∃ tr, transports (f w).2 !! (f w).1 = Some tr
    ∧ match http.TLSClientConfig tr with
      | Some c => is_Some (tlsConfigs (f w).2 !! c)
      | None => True
      end.

(** Every transport in the registry verifies against the host it is
    stored under. *)
Definition registry_bound (s : State) : Prop :=
  ∀ k p, hostRTs (self s) !! k = Some p → ServerName_of (world s) p = Some k.

Definition is_factory_call_for (host : string) (e : Event) : bool :=
  match e with
  | CallFactory h _ => String.eqb h host
  | _ => false
  end.

Definition factory_calls_for (host : string) (evs : list Event) : nat :=
  length (List.filter (is_factory_call_for host) evs).

(** The log shows one factory call for each host in the registry, and
    none for any other host. *)
Definition calls_match_registry (s : State) : Prop :=
  ∀ k, factory_calls_for k (calls s)
       = match hostRTs (self s) !! k with Some _ => 1%nat | None => 0%nat end.

(** A request as [RoundTrip] expects it: allocated, with a URL. *)
Definition valid_request (w : World) (req : loc) (r : http.Request)
    (pu : loc) (u : url.URL) : Prop :=
  requests w !! req = Some r ∧ http.URL r = Some pu ∧ urls w !! pu = Some u.

(** The values the success path of [RoundTrip] computes on the way: the
    merged IPs [AddAndGet] returns, and the index [rand.Intn] returns. *)
Definition merged_ips (s : State) (host : string) (ips : list IP) : list IP :=
  (expiring.AddAndGet (time_Now (ext (world s))).1 host ips
     (hostIPs (self s))).1.

Definition selected_index (s : State) (host : string) (ips : list IP) : Z :=
  let n := Z.of_nat (length (merged_ips s host ips)) in
  ((rand_draw n (time_Now (ext (world s))).2).1 mod n)%Z.

(** The state [rewrite_request] leaves when it selects [ip]: the cache
    merged, a clone of [r] and of its URL [u] allocated and rewritten, the
    clock and the random source advanced; nothing else touched. *)
Definition rewritten (s : State) (r : http.Request) (u : url.URL)
    (host : string) (ips : list IP) (ip : IP) : State :=
  let hostReq := new_loc (requests (world s)) in
  let hostURL := new_loc (urls (world s)) in
  let n := Z.of_nat (length (merged_ips s host ips)) in
  {| self :=
       {| factory := factory (self s); hostRTs := hostRTs (self s);
          hostIPs := (expiring.AddAndGet (time_Now (ext (world s))).1 host ips
                        (hostIPs (self s))).2 |};
     world :=
       {| requests :=
            <[hostReq := http.set_Host (http.set_URL r (Some hostURL)) host]>
              (requests (world s));
          urls := <[hostURL := url.set_Host u (IP_String ip)]> (urls (world s));
          transports := transports (world s);
          tlsConfigs := tlsConfigs (world s);
          closed := closed (world s);
          ext := (rand_draw n (time_Now (ext (world s))).2).2 |};
     calls := calls s ++ [CallAddAndGet host ips] |}.

(** The state after the resolver has answered, leaving [e] behind. *)
Definition resolved (s : State) (host : string) (e : E) : State :=
  {| self := self s; world := with_ext e (world s);
     calls := calls s ++ [CallLookupIP host] |}.

(** The state in which the delegated transport [rt] is handed [hostReq]. *)
Definition dispatching (s : State) (rt hostReq : loc) : State :=
  {| self := self s; world := world s;
     calls := calls s ++ [CallRoundTrip rt hostReq] |}.

(** The state a failed resolution leaves: the body closed if there is
    one, and nothing of the transport's own touched. *)
Definition failed (s : State) (host : string) (e : E) (body : option loc)
    : State :=
  {| self := self s;
     world :=
       match body with
       | Some b => with_closed (λ c, {[b]} ∪ c) (with_ext e (world s))
       | None => with_ext e (world s)
       end;
     calls :=
       calls s ++ CallLookupIP host ::
         match body with Some b => [CallClose b] | None => [] end |}.

(** Sequential lookups, in order. *)
Fixpoint lookup_all (hosts : list string) : M (list loc) :=
  match hosts with
  | [] => mret []
  | h :: rest => rt ← hostRoundTripper h; rts ← lookup_all rest; mret (rt :: rts)
  end.

(** The state [s] with the collaborators in state [ω]. *)
Definition with_seed (s : State) (ω : E) : State :=
  {| self := self s; world := with_ext ω (world s); calls := calls s |}.

(** What [rand.Intn n] returns in a [RoundTrip] for [host] that starts
    with the collaborators in state [ω]: the generator is drawn after the
    resolver and the clock have run. *)
Definition Intn_outcome (host : string) (n : Z) (ω : E) : Z :=
  ((rand_draw n (time_Now (LookupIP host ω).2).2).1 mod n)%Z.

(** [rand.Intn n] is uniform over the equally likely states [Ω]: each of
    the [n] indexes is the outcome in the same number [c] of them. *)
Definition Intn_uniform (host : string) (n : Z) (Ω : list E) (c : nat) : Prop :=
  ∀ j, (0 ≤ j < n)%Z →
    length (filter (λ ω, Intn_outcome host n ω = j) Ω) = c.

(** Two transports that differ at most in their TLSClientConfig pointer. *)
Definition same_settings (a b : http.Transport) : Prop :=
  http.set_TLSClientConfig a None = http.set_TLSClientConfig b None.

(** Requests served one after the other, as one caller would issue them. *)
Fixpoint RoundTrip_all (reqs : list loc)
    : M (list (option http.Response * option error)) :=
  match reqs with
  | [] => mret []
  | req :: rest =>
      res ← RoundTrip req; more ← RoundTrip_all rest; mret (res :: more)
  end.

(** Whether a computation returned rather than panicked. *)
Definition completes {A} (o : outcome A) : bool :=
  match o with Done _ _ => true | Panic _ => false end.

End Model.

Arguments World : clear implicits.
Arguments T : clear implicits.
Arguments State : clear implicits.
Arguments Env : clear implicits.
Arguments Done {E A} a s.
Arguments Panic {E A} why.

(** ** A concrete environment to run the model in *)

Module Example.

(** The collaborator state is a tick counter: it is the clock and the seed. *)
Definition bucket : string := "bucket.example.com".
Definition ipA : IP := [203; 0; 113; 5]%N.
Definition ipB : IP := [203; 0; 113; 6]%N.

Definition dotted (ip : IP) : string :=
  String.concat "." (map (λ b, NilEmpty.string_of_uint (N.to_uint b)) ip).

#[local] Instance env : Env Z := {|
  expireAfter := 5 * Second;
  expireLoopEvery := 1 * Second;
  LookupIP host e :=
    if String.eqb host bucket then (inl [ipA; ipB], (e + 1)%Z)
    else if String.eqb host "empty.example.com" then (inl [], (e + 1)%Z)
    else (inr (ErrOpaque "no such host"), (e + 1)%Z);
  rand_draw n e := (e, (e + 1)%Z);
  time_Now e := ((e * Second)%Z, (e + 1)%Z);
  IP_String := dotted;
  Transport_RoundTrip rt hostReq w :=
    ((Some (http.mkResponse 200 None), None), w)
|}.

Definition get : http.Request :=
  {| http.Method := "GET"; http.URL := Some 1%positive; http.Header := [];
     http.Host := ""; http.Body := None |}.

Definition put (u body : loc) : http.Request :=
  {| http.Method := "PUT"; http.URL := Some u; http.Header := [];
     http.Host := ""; http.Body := Some body |}.

(** Package initialisation plus four requests a caller has built. *)
Definition w0 : World Z :=
  {| requests := {[ 1%positive := get; 2%positive := put 2%positive 7%positive;
                    3%positive := put 3%positive 8%positive;
                    4%positive := put 4%positive 9%positive ]};
     urls := {[ 1%positive := url.mkURL "https" "bucket.example.com:8443" "/k" "";
                2%positive := url.mkURL "https" "bucket.example.com:9000" "/k" "";
                3%positive := url.mkURL "https" "nowhere.invalid" "/k" "";
                4%positive := url.mkURL "https" "empty.example.com" "/k" "" ]};
     transports := {[ 1%positive := httpTransport ]};
     tlsConfigs := {[ httpTransport_TLSClientConfig := tls.mkConfig "" ]};
     closed := ∅;
     ext := 0%Z |}.

Definition default_factory : World Z → loc * World Z :=
  Default_factory (H:=env).

Definition d0 : State Z := Default (H:=env) w0.

Definition u1 : url.URL := url.mkURL "https" "bucket.example.com:8443" "/k" "".
Definition u3 : url.URL := url.mkURL "https" "nowhere.invalid" "/k" "".
Definition r3 : http.Request := put 3%positive 8%positive.

(** Two requests, one after the other. *)
Definition RoundTrip_twice (req1 req2 : loc) (s : State Z) :=
  match RoundTrip (H:=env) req1 s with
  | Done _ s' => RoundTrip (H:=env) req2 s'
  | Panic why => Panic why
  end.

(** Two lookups, one after the other; the state they leave. *)
Definition lookup_twice (f : World Z → loc * World Z) (h1 h2 : string)
    : option (State Z) :=
  match hostRoundTripper h1 (New f w0) with
  | Done _ s1 =>
      match hostRoundTripper h2 s1 with
      | Done _ s2 => Some s2
      | Panic _ => None
      end
  | Panic _ => None
  end.

(** A factory that hands out transports without a TLS configuration. *)
Definition bare_factory : World Z → loc * World Z :=
  Transport_Clone (http.set_TLSClientConfig httpTransport None) None.

(** A factory that breaks the contract: one Transport for every call. *)
Definition shared_factory : World Z → loc * World Z := λ w, (1%positive, w).

End Example.

(** ** Further inputs: a request without a URL, and IPv6 addresses *)

Module Edge.
Import Example.

(** A request whose URL is nil, next to the requests of [w0]. *)
Definition no_url : http.Request :=
  {| http.Method := "GET"; http.URL := None; http.Header := [];
     http.Host := "bucket.example.com"; http.Body := None |}.

Definition w_nil : World Z := with_requests <[9%positive := no_url]> w0.

(** An IPv6 address, and [net.IP.String] as it prints one: colon-separated
    groups, no brackets. *)
Definition ip6 : IP := [32; 1; 13; 184; 0; 0; 0; 0; 0; 0; 0; 0; 0; 0; 0; 1]%N.

#[local] Instance env6 : Env Z := {|
  expireAfter := 5 * Second;
  expireLoopEvery := 1 * Second;
  LookupIP host e := (inl [ip6], (e + 1)%Z);
  rand_draw n e := (e, (e + 1)%Z);
  time_Now e := ((e * Second)%Z, (e + 1)%Z);
  IP_String ip :=
    if (length ip =? 16)%nat then "2001:db8::1" else dotted ip;
  Transport_RoundTrip rt hostReq w :=
    ((Some (http.mkResponse 200 None), None), w)
|}.

Definition d6 : State Z := Default (H:=env6) w0.

(** The registry after one lookup with the factory that shares. *)
Definition after_a : State Z :=
  match hostRoundTripper "a.example.com" (New shared_factory w0) with
  | Done _ s => s
  | Panic _ => New shared_factory w0
  end.

End Edge.

(** * Proofs *)

Section Proofs.

Context {E : Type} `{!Env E}.
Implicit Types (s : State E) (w : World E) (host : string).

#[local] Arguments expiring.AddAndGet : simpl never.
#[local] Existing Instances M_ret M_bind.

Ltac run :=
  unfold mbind, M_bind, mret, M_ret, get_self, get_world, modify_world,
    modify_self, record, in_world, outside, deref, deref_opt, panic; cbn.

(** ** Hostname *)

Lemma LastIndexByte_absent (p : string) :
  Strings.all_bytes url.is_digit p = true → Strings.LastIndexByte p ":" = (-1)%Z.
Proof.
  induction p as [|a p IH]; cbn; [done|].
  intros [Ha Hp]%andb_prop. rewrite (IH Hp). cbn.
  destruct (Ascii.eqb_spec a ":") as [->|]; [discriminate Ha|done].
Qed.

Lemma LastIndexByte_append (h p : string) (c : ascii) :
  Strings.LastIndexByte p c = (-1)%Z →
  Strings.LastIndexByte (h ++ String c p) c = Z.of_nat (String.length h).
Proof.
  intros Hp. induction h as [|a h IH].
  - change ("" ++ String c p) with (String c p).
    cbn [Strings.LastIndexByte String.length]. rewrite Hp.
    change (0 <=? -1)%Z with false. cbn iota. by rewrite Ascii.eqb_refl.
  - change (String a h ++ String c p) with (String a (h ++ String c p)).
    cbn [Strings.LastIndexByte String.length]. rewrite IH.
    destruct (0 <=? Z.of_nat (String.length h))%Z eqn:Hle; lia.
Qed.

Lemma substring_whole (x : string) : substring 0 (String.length x) x = x.
Proof. induction x as [|a x IH]; simpl; [done|]. by rewrite IH. Qed.

Lemma substring_append_l (h x : string) :
  substring 0 (String.length h) (h ++ x) = h.
Proof.
  induction h as [|a h IH]; simpl; [by destruct x|]. by rewrite IH.
Qed.

Lemma substring_append_r (h x : string) (n : nat) :
  substring (String.length h) n (h ++ x) = substring 0 n x.
Proof. induction h as [|a h IH]; simpl; [done|]. exact IH. Qed.

Lemma length_append (h x : string) :
  String.length (h ++ x) = (String.length h + String.length x)%nat.
Proof. induction h as [|a h IH]; simpl; [done|]. by rewrite IH. Qed.

Lemma append_assoc (a b c : string) : (a ++ b) ++ c = a ++ (b ++ c).
Proof.
  induction a as [|x a IH]; [done|].
  change (String x ((a ++ b) ++ c) = String x (a ++ (b ++ c))). by rewrite IH.
Qed.

(** [host:port] with a numeric port splits at that colon. *)
Lemma splitHostPort_port (h port : string) :
  Strings.all_bytes url.is_digit port = true →
  url.splitHostPort (h ++ ":" ++ port) = (url.unbracket h, port).
Proof.
  intros Hport. unfold url.splitHostPort.
  change (h ++ ":" ++ port) with (h ++ String ":" port).
  rewrite (LastIndexByte_append h port ":" (LastIndexByte_absent port Hport)).
  destruct (Z.eqb_spec (Z.of_nat (String.length h)) (-1)); [lia|]. cbn [negb andb].
  unfold Strings.slice_from, Strings.slice_to.
  replace (Z.to_nat (Z.of_nat (String.length h) + 1))
    with (String.length (h ++ ":")) by (rewrite length_append; cbn; lia).
  rewrite Nat2Z.id, substring_append_l, substring_append_r.
  replace (h ++ String ":" port) with ((h ++ ":") ++ port)
    by (rewrite append_assoc; reflexivity).
  rewrite substring_append_r, !length_append. cbn [String.length].
  replace (String.length h + 1 + String.length port - String.length h)%nat
    with (String.length (String ":" port)) by (cbn; lia).
  rewrite substring_whole.
  replace (String.length h + 1 + String.length port - (String.length h + 1))%nat
    with (String.length port) by lia.
  rewrite substring_whole. cbn [url.validOptionalPort].
  rewrite Ascii.eqb_refl, Hport. reflexivity.
Qed.


(** ** The registry *)

Lemma new_loc_fresh {A} (heap : gmap loc A) : heap !! new_loc heap = None.
Proof. unfold new_loc. apply not_elem_of_dom, is_fresh. Qed.

Lemma factory_separate_allocates (f : World E → loc * World E) :
  factory_separate f → factory_allocates f.
Proof.
  intros Hf w. specialize (Hf w). destruct (f w) as [p w1]. cbn.
  destruct Hf as (_ & _ & _ & _ & _ & _ & tr & Htr & Hc).
  exists tr. split; [done|]. destruct (http.TLSClientConfig tr); [apply Hc | done].
Qed.

Lemma hostRoundTripper_hit s host rt :
  hostRTs (self s) !! host = Some rt → hostRoundTripper host s = Done rt s.
Proof.
  intros Hrt. unfold hostRoundTripper. run. rewrite Hrt. reflexivity.
Qed.

(** A miss calls the factory once, binds the new transport to [host] and
    stores it; transports whose configuration the new one does not share
    keep their server name. *)
Lemma hostRoundTripper_miss s host :
  hostRTs (self s) !! host = None →
  factory_allocates (factory (self s)) →
  let rt := (factory (self s) (world s)).1 in
  let w1 := (factory (self s) (world s)).2 in
  ∃ s', hostRoundTripper host s = Done rt s'
    ∧ self s' = {| factory := factory (self s);
                   hostRTs := <[host := rt]> (hostRTs (self s));
                   hostIPs := hostIPs (self s) |}
    ∧ calls s' = (calls s ++ [CallFactory host rt])%list
    ∧ requests (world s') = requests w1 ∧ urls (world s') = urls w1
    ∧ closed (world s') = closed w1 ∧ ext (world s') = ext w1
    ∧ ServerName_of (world s') rt = Some host
    ∧ (∀ tr, transports w1 !! rt = Some tr → http.TLSClientConfig tr = None →
         ∃ tr' c, transports (world s') !! rt = Some tr'
           ∧ http.TLSClientConfig tr' = Some c ∧ tlsConfigs w1 !! c = None)
    ∧ (∀ q c k, q ≠ rt →
         (∃ tr, transports w1 !! q = Some tr ∧ http.TLSClientConfig tr = Some c) →
         (∀ tr, transports w1 !! rt = Some tr → http.TLSClientConfig tr ≠ Some c) →
         is_Some (tlsConfigs w1 !! c) →
         ServerName_of w1 q = Some k → ServerName_of (world s') q = Some k).
Proof.
  intros Hrt Hf. unfold hostRoundTripper. run. rewrite Hrt.
  destruct (Hf (world s)) as (tr & Htr & Hc).
  destruct (factory (self s) (world s)) as [p w1] eqn:Hfw. cbn in *.
  rewrite Htr.
  destruct (http.TLSClientConfig tr) as [c|] eqn:Hcfg.
  - cbn. rewrite Htr, Hcfg. run. destruct Hc as [cfg Hc]. rewrite Hc. cbn.
    eexists. split; [reflexivity|]. cbn. repeat split.
    + unfold ServerName_of. cbn. rewrite Htr. cbn. rewrite Hcfg. cbn.
      rewrite lookup_insert_eq. reflexivity.
    + intros tr0 Htr0 Hnil. congruence.
    + intros q c0 k Hq (tr0 & Htr0 & Hc0) Hne _. unfold ServerName_of. cbn.
      rewrite Htr0. cbn. rewrite Hc0. cbn.
      rewrite lookup_insert_ne; [done|]. intros ->. by apply (Hne tr).
  - unfold alloc_tlsConfig. run. rewrite lookup_insert_eq. cbn.
    rewrite lookup_insert_eq. cbn.
    eexists. split; [reflexivity|]. cbn. repeat split.
    + unfold ServerName_of. cbn. rewrite lookup_insert_eq. cbn.
      rewrite lookup_insert_eq. reflexivity.
    + intros tr0 Htr0 Hnil. eexists _, _. rewrite lookup_insert_eq.
      split; [reflexivity|]. split; [reflexivity|]. apply new_loc_fresh.
    + intros q c0 k Hq (tr0 & Htr0 & Hc0) Hne Hsome. unfold ServerName_of. cbn.
      rewrite lookup_insert_ne by done. rewrite Htr0. cbn. rewrite Hc0. cbn.
      assert (new_loc (tlsConfigs w1) ≠ c0).
      { intros <-. rewrite new_loc_fresh in Hsome. by destruct Hsome. }
      rewrite !lookup_insert_ne by done. done.
Qed.

Lemma factory_calls_for_snoc k evs h rt :
  factory_calls_for k (evs ++ [CallFactory h rt])
  = (factory_calls_for k evs + (if decide (h = k) then 1 else 0))%nat.
Proof.
  unfold factory_calls_for. rewrite List.filter_app, length_app. cbn.
  destruct (String.eqb_spec h k); case_decide; try done.
Qed.

(** One lookup, from any state: what it returns and what it keeps. *)
Lemma lookup_step (f : World E → loc * World E) s h :
  factory (self s) = f → factory_allocates f →
  ∃ rt s', hostRoundTripper h s = Done rt s'
    ∧ factory (self s') = f
    ∧ hostRTs (self s') !! h = Some rt
    ∧ (∀ k p, hostRTs (self s) !! k = Some p → hostRTs (self s') !! k = Some p)
    ∧ match hostRTs (self s) !! h with
      | Some p => rt = p ∧ s' = s
      | None => rt = (f (world s)).1
                ∧ calls s' = (calls s ++ [CallFactory h rt])%list
                ∧ self s' = {| factory := f;
                               hostRTs := <[h := rt]> (hostRTs (self s));
                               hostIPs := hostIPs (self s) |}
      end
    ∧ (calls_match_registry s → calls_match_registry s')
    ∧ (factory_separate f → registry_bound s →
       registry_bound s' ∧ ServerName_of (world s') rt = Some h).
Proof.
  intros Hf Halloc. destruct (hostRTs (self s) !! h) as [p|] eqn:Hh.
  - exists p, s. rewrite (hostRoundTripper_hit _ _ _ Hh).
    repeat split; auto.
  - destruct (hostRoundTripper_miss s h Hh) as (s' & Hrun & Hself & Hcalls & _ & _ & _ & _ & Hname & _ & Hkeep).
    { by rewrite Hf. }
    rewrite Hf in *. exists (f (world s)).1, s'. rewrite Hself, Hcalls. cbn.
    split; [done|]. split; [done|]. split; [apply lookup_insert_eq|].
    split.
    { intros k p Hk. rewrite lookup_insert_ne; [done|]. congruence. }
    split; [done|]. split.
    + intros Hm k. rewrite Hcalls, Hself, factory_calls_for_snoc, Hm. cbn.
      case_decide as Hk.
      * subst k. rewrite Hh, lookup_insert_eq. done.
      * rewrite lookup_insert_ne by done. destruct (hostRTs (self s) !! k); lia.
    + intros Hsep Hb. split; [|done]. intros k p. rewrite Hself. cbn.
      destruct (decide (h = k)) as [->|Hk].
      * rewrite lookup_insert_eq. intros [= <-]. done.
      * rewrite lookup_insert_ne by done. intros Hp. specialize (Hb k p Hp).
        specialize (Hsep (world s)).
        destruct (f (world s)) as [rt w1] eqn:Hfw. cbn in *.
        destruct Hsep as (Hnew & Hold & Hcfgs & _ & _ & _ & trn & Htrn & Hcn).
        unfold ServerName_of in Hb.
        destruct (transports (world s) !! p) as [tr0|] eqn:Htr0; [|done].
        cbn in Hb. destruct (http.TLSClientConfig tr0) as [c0|] eqn:Hc0; [|done].
        cbn in Hb. destruct (tlsConfigs (world s) !! c0) as [cfg0|] eqn:Hcfg0; [|done].
        assert (p ≠ rt) by congruence.
        apply (Hkeep p c0 k); [done| | | |].
        -- exists tr0. rewrite Hold by done. done.
        -- intros tr Htr Hc. rewrite Htrn in Htr. injection Htr as <-.
           rewrite Hc in Hcn. destruct Hcn as [Hcn _]. congruence.
        -- rewrite Hcfgs by eauto. eauto.
        -- unfold ServerName_of. rewrite Hold by done. rewrite Htr0. cbn.
           rewrite Hc0. cbn. rewrite Hcfgs by eauto. rewrite Hcfg0. done.
Qed.

(** Any history of lookups, from any state. *)
Lemma lookup_run (f : World E → loc * World E) hs : ∀ s,
  factory (self s) = f → factory_allocates f →
  ∃ rts s', lookup_all hs s = Done rts s'
    ∧ factory (self s') = f
    ∧ (∀ k p, hostRTs (self s) !! k = Some p → hostRTs (self s') !! k = Some p)
    ∧ (calls_match_registry s → calls_match_registry s')
    ∧ (factory_separate f → registry_bound s → registry_bound s').
Proof.
  induction hs as [|h hs IH]; intros s Hf Halloc.
  - exists [], s. cbn. repeat split; auto.
  - destruct (lookup_step f s h Hf Halloc)
      as (rt & s1 & Hrun & Hf1 & _ & Hkeep1 & _ & Hm1 & Hb1).
    destruct (IH s1 Hf1 Halloc) as (rts & s2 & Hrun2 & Hf2 & Hkeep2 & Hm2 & Hb2).
    exists (rt :: rts), s2. cbn. unfold mbind, M_bind. rewrite Hrun, Hrun2. cbn.
    repeat split; auto. intros Hsep Hb. apply Hb2; [done|]. by apply Hb1.
Qed.

Lemma Transport_Clone_separate (t : http.Transport) (cfg : option tls.Config) :
  factory_separate (Transport_Clone (E:=E) t cfg).
Proof.
  intros w. unfold Transport_Clone. destruct cfg as [c|]; cbn.
  - split; [apply new_loc_fresh|]. split.
    { intros q Hq. by rewrite lookup_insert_ne. }
    split.
    { intros c0 Hc0. rewrite lookup_insert_ne; [done|]. intros <-.
      rewrite new_loc_fresh in Hc0. by destruct Hc0. }
    repeat (split; [done|]). eexists. rewrite lookup_insert_eq.
    split; [done|]. cbn. split; [apply new_loc_fresh|].
    rewrite lookup_insert_eq. eauto.
  - split; [apply new_loc_fresh|]. split.
    { intros q Hq. by rewrite lookup_insert_ne. }
    repeat (split; [done|]). eexists. rewrite lookup_insert_eq. done.
Qed.

Lemma New_registry_bound (f : World E → loc * World E) w : registry_bound (New f w).
Proof. intros k p. cbn. by rewrite lookup_empty. Qed.

Lemma New_calls_match_registry (f : World E → loc * World E) w :
  calls_match_registry (New f w).
Proof. intros k. cbn. by rewrite lookup_empty. Qed.

(** C1. After any history of lookups on a registry made by [New], a
    lookup for host [h] returns a transport whose TLS ServerName is [h],
    and every transport in the registry has the ServerName of the host it
    is stored under.  When the factory handed out a transport with a nil
    TLSClientConfig, the lookup has installed a configuration that did not
    exist before.  The factory keeps the contract [New] documents. *)
Theorem hostRoundTripper_binds_ServerName
    (f : World E → loc * World E) (w0 : World E) (hs : list string) (h : string) :
  factory_separate f →
  ∃ rts s rt s',
    lookup_all hs (New f w0) = Done rts s
    ∧ hostRoundTripper h s = Done rt s'
    ∧ ServerName_of (world s') rt = Some h
    ∧ registry_bound s'
    ∧ (hostRTs (self s) !! h = None →
       ∀ tr, transports (f (world s)).2 !! rt = Some tr →
             http.TLSClientConfig tr = None →
       ∃ tr' c, transports (world s') !! rt = Some tr'
         ∧ http.TLSClientConfig tr' = Some c
         ∧ tlsConfigs (f (world s)).2 !! c = None).
Proof.
  intros Hsep. pose proof (factory_separate_allocates f Hsep) as Halloc.
  destruct (lookup_run f hs (New f w0) eq_refl Halloc)
    as (rts & s & Hrun & Hf & _ & _ & Hb).
  specialize (Hb Hsep (New_registry_bound f w0)).
  destruct (lookup_step f s h Hf Halloc)
    as (rt & s' & Hstep & _ & _ & _ & _ & _ & Hb').
  destruct (Hb' Hsep Hb) as [Hbound Hname].
  exists rts, s, rt, s'. repeat (split; [done|]).
  intros Hmiss tr Htr Hnil.
  destruct (hostRoundTripper_miss s h Hmiss)
    as (s2 & Hrun2 & _ & _ & _ & _ & _ & _ & _ & Hfresh & _).
  { by rewrite Hf. }
  rewrite Hf in *. rewrite Hstep in Hrun2. injection Hrun2 as -> ->.
  by apply (Hfresh tr).
Qed.


(** ** The expiring map *)

Lemma current_AddAndGet now key newValues m k :
  expiring.current (expiring.AddAndGet now key newValues m).2 k
  = if decide (key = k)
    then expiring.current m k ∪ list_to_set newValues
    else expiring.current m k.
Proof.
  unfold expiring.AddAndGet, expiring.current. cbn. case_decide as Hk.
  - subst. by rewrite lookup_insert_eq.
  - by rewrite lookup_insert_ne.
Qed.

Lemma serve_all_grows cs : ∀ m k,
  expiring.current m k ⊆ expiring.current (expiring.serve_all cs m) k.
Proof.
  induction cs as [|c cs IH]; intros m k; [done|].
  change (expiring.serve_all (c :: cs) m)
    with (expiring.serve_all cs (expiring.serve m c)).
  etrans; [|apply IH]. unfold expiring.serve.
  rewrite current_AddAndGet. case_decide; set_solver.
Qed.

(** C6. [AddAndGet(key, v1)] and later [AddAndGet(key, v2)], with any
    calls of other callers served before and in between: the second call
    returns a list without duplicates that holds every IP of [v1] and of
    [v2].  A call returns exactly the set now stored for the key, which is
    what was stored before together with the new values, and the entry
    exists afterwards. *)
Theorem AddAndGet_union_no_duplicates
    (m0 : expiring.expiringMap) (key : string) (v1 v2 : list IP) (t1 t2 : Z)
    (between : list expiring.call) :
  let m1 := (expiring.AddAndGet t1 key v1 m0).2 in
  let m2 := expiring.serve_all between m1 in
  let r2 := (expiring.AddAndGet t2 key v2 m2).1 in
  let m3 := (expiring.AddAndGet t2 key v2 m2).2 in
  NoDup r2
  ∧ (∀ ip, ip ∈ v1 ∨ ip ∈ v2 → ip ∈ r2)
  ∧ (∀ ip, ip ∈ r2 ↔ ip ∈ expiring.current m2 key ∨ ip ∈ v2)
  ∧ (∀ ip, ip ∈ r2 ↔ ip ∈ expiring.current m3 key)
  ∧ is_Some (expiring.elems m3 !! key)
  ∧ (∀ ip, ip ∈ (expiring.AddAndGet t1 key v1 m0).1 → ip ∈ r2).
Proof.
  intros m1 m2 r2 m3.
  assert (Hr2 : ∀ ip, ip ∈ r2 ↔ ip ∈ expiring.current m2 key ∨ ip ∈ v2).
  { intros ip. unfold r2, expiring.AddAndGet. cbn.
    rewrite elem_of_elements, elem_of_union, elem_of_list_to_set. done. }
  assert (Hm1 : ∀ ip, ip ∈ expiring.current m1 key
                      ↔ ip ∈ expiring.current m0 key ∨ ip ∈ v1).
  { intros ip. unfold m1. rewrite current_AddAndGet.
    rewrite decide_True by done.
    rewrite elem_of_union, elem_of_list_to_set. done. }
  pose proof (serve_all_grows between m1 key) as Hgrow. fold m2 in Hgrow.
  split; [apply NoDup_elements|]. split.
  { intros ip [Hip|Hip]; apply (proj2 (Hr2 ip)); [left|by right].
    apply Hgrow, (proj2 (Hm1 ip)). by right. }
  split; [done|]. split.
  { intros ip. unfold m3. rewrite current_AddAndGet.
    rewrite decide_True by done.
    rewrite Hr2, elem_of_union, elem_of_list_to_set. done. }
  split.
  { unfold m3, expiring.AddAndGet. cbn. rewrite lookup_insert_eq. eauto. }
  intros ip Hip. apply (proj2 (Hr2 ip)). left. apply Hgrow, (proj2 (Hm1 ip)).
  unfold expiring.AddAndGet in Hip. cbn in Hip.
  rewrite elem_of_elements, elem_of_union, elem_of_list_to_set in Hip. done.
Qed.

(** The sweep is the one path that removes values: an entry last seen
    before the expiry window is gone after a pass. *)
Lemma expireOnce_drops window now m k e :
  expiring.elems m !! k = Some e → (expiring.lastSeen e < now - window)%Z →
  expiring.elems (expiring.expireOnce window now m) !! k = None.
Proof.
  intros Hk Hold. unfold expiring.expireOnce. cbn.
  apply map_lookup_filter_None. right. intros e' He'. cbn.
  rewrite Hk in He'. injection He' as <-. lia.
Qed.

(** ** RoundTrip *)

Lemma selected_index_in_range s host ips :
  merged_ips s host ips ≠ [] →
  (0 ≤ selected_index s host ips < Z.of_nat (length (merged_ips s host ips)))%Z.
Proof.
  intros Hne. unfold selected_index. apply Z.mod_pos_bound.
  destruct (merged_ips s host ips); [done|]. cbn. lia.
Qed.

Lemma selected_index_lookup s host ips :
  merged_ips s host ips ≠ [] →
  ∃ ip, merged_ips s host ips !! Z.to_nat (selected_index s host ips) = Some ip.
Proof.
  intros Hne. apply lookup_lt_is_Some_2.
  pose proof (selected_index_in_range s host ips Hne). lia.
Qed.

(** Lines 65 to 70 on a valid request, when the merged set is not empty. *)
Lemma rewrite_request_spec s req r pu u host ips :
  valid_request (world s) req r pu u →
  merged_ips s host ips ≠ [] →
  ∃ ip, merged_ips s host ips !! Z.to_nat (selected_index s host ips) = Some ip
    ∧ rewrite_request req host ips s
      = Done (new_loc (requests (world s))) (rewritten s r u host ips ip).
Proof.
  intros (Hreq & Hurl & Hu) Hne.
  destruct (selected_index_lookup s host ips Hne) as [ip Hip].
  pose proof (selected_index_in_range s host ips Hne) as Hrange.
  exists ip. split; [done|].
  unfold selected_index, merged_ips in *.
  unfold rewrite_request, hostIPs_AddAndGet, Request_Clone, alloc_url,
    alloc_request, rand_Intn, index, rewritten, merged_ips.
  repeat progress run.
  destruct (time_Now (ext (world s))) as [now e1]. cbn in *.
  destruct (expiring.AddAndGet now host ips (hostIPs (self s))) as [all m] eqn:Hadd.
  cbn in *. rewrite Hreq. cbn. rewrite Hurl. cbn. rewrite Hu. cbn.
  rewrite !lookup_insert_eq. cbn.
  destruct (Z.of_nat (length all) <=? 0)%Z eqn:Hn; [lia|]. repeat progress run.
  destruct (rand_draw (Z.of_nat (length all)) e1) as [d e2]. cbn in *.
  destruct (d `mod` Z.of_nat (length all) <? 0)%Z eqn:Hi; [lia|].
  rewrite Hip. cbn. unfold with_urls, with_requests, with_ext. cbn.
  rewrite !lookup_insert_eq. cbn.
  rewrite !insert_insert_eq. reflexivity.
Qed.

(** A lookup leaves requests, URLs and bodies alone when the factory does. *)
Lemma hostRoundTripper_frame s host rt s' :
  factory_separate (factory (self s)) →
  hostRoundTripper host s = Done rt s' →
  requests (world s') = requests (world s)
  ∧ urls (world s') = urls (world s)
  ∧ closed (world s') = closed (world s).
Proof.
  intros Hsep Hrun. destruct (hostRTs (self s) !! host) as [p|] eqn:Hh.
  - rewrite (hostRoundTripper_hit _ _ _ Hh) in Hrun. by injection Hrun as _ <-.
  - destruct (hostRoundTripper_miss s host Hh (factory_separate_allocates _ Hsep))
      as (s2 & Hrun2 & _ & _ & Hr & Hu & Hc & _).
    rewrite Hrun in Hrun2. injection Hrun2 as _ <-.
    specialize (Hsep (world s)).
    destruct (factory (self s) (world s)) as [q w1]. cbn in *.
    destruct Hsep as (_ & _ & _ & Hr1 & Hu1 & Hc1 & _). by rewrite Hr, Hu, Hc.
Qed.

(** When the resolver fails. *)
Lemma RoundTrip_failure s req r pu u err e1 :
  valid_request (world s) req r pu u →
  LookupIP (url.Hostname u) (ext (world s)) = (inr err, e1) →
  RoundTrip req s
  = Done (None, Some (Errorf_w "s3transport: lookup ip: " err))
         (failed s (url.Hostname u) e1 (http.Body r)).
Proof.
  intros (Hreq & Hurl & Hu) Hres. unfold RoundTrip, Body_Close, failed.
  repeat progress run. rewrite Hreq. cbn. rewrite Hurl. cbn. rewrite Hu. cbn.
  rewrite Hres. cbn. rewrite Hreq. cbn.
  destruct (http.Body r) as [b|]; cbn; [|reflexivity].
  rewrite <- app_assoc. reflexivity.
Qed.

(** When the resolver succeeds: the rest of [RoundTrip] from there. *)
Lemma RoundTrip_success s req r pu u ips e1 :
  valid_request (world s) req r pu u →
  LookupIP (url.Hostname u) (ext (world s)) = (inl ips, e1) →
  RoundTrip req s
  = (hostReq ← rewrite_request req (url.Hostname u) ips;
     rt ← hostRoundTripper (url.Hostname u);
     record (CallRoundTrip rt hostReq);;
     in_world (Transport_RoundTrip rt hostReq))
      (resolved s (url.Hostname u) e1).
Proof.
  intros (Hreq & Hurl & Hu) Hres. unfold RoundTrip, resolved.
  unfold mbind at 1 2 3 4 5. unfold M_bind at 1 2 3 4 5.
  unfold deref at 1. rewrite Hreq. unfold deref_opt. rewrite Hurl.
  unfold deref at 1. rewrite Hu. cbn.
  unfold outside, in_world. cbn. rewrite Hres. reflexivity.
Qed.

(** The whole success path: an IP of the merged set is selected, the
    registry supplies the transport, and the call is the delegated one. *)
Lemma RoundTrip_dispatch s req r pu u ips e1 :
  valid_request (world s) req r pu u →
  LookupIP (url.Hostname u) (ext (world s)) = (inl ips, e1) →
  let host := url.Hostname u in
  let s1 := resolved s host e1 in
  let hostReq := new_loc (requests (world s)) in
  merged_ips s1 host ips ≠ [] →
  factory_allocates (factory (self s)) →
  ∃ ip rt s3,
    merged_ips s1 host ips !! Z.to_nat (selected_index s1 host ips) = Some ip
    ∧ hostRoundTripper host (rewritten s1 r u host ips ip) = Done rt s3
    ∧ hostRTs (self s3) !! host = Some rt
    ∧ RoundTrip req s
      = in_world (Transport_RoundTrip rt hostReq) (dispatching s3 rt hostReq)
    ∧ match hostRTs (self s) !! host with
      | Some p => rt = p ∧ s3 = rewritten s1 r u host ips ip
      | None =>
          calls s3 = (calls (rewritten s1 r u host ips ip)
                      ++ [CallFactory host rt])%list
          ∧ self s3 = {| factory := factory (self s);
                         hostRTs := <[host := rt]> (hostRTs (self s));
                         hostIPs := hostIPs (self (rewritten s1 r u host ips ip)) |}
      end
    ∧ (factory_separate (factory (self s)) →
       requests (world s3) = requests (world (rewritten s1 r u host ips ip))
       ∧ urls (world s3) = urls (world (rewritten s1 r u host ips ip))
       ∧ closed (world s3) = closed (world s)
       ∧ (registry_bound s → ServerName_of (world s3) rt = Some host)).
Proof.
  intros Hvalid Hres host s1 hostReq Hne Halloc.
  assert (Hvalid1 : valid_request (world s1) req r pu u) by exact Hvalid.
  destruct (rewrite_request_spec s1 req r pu u host ips Hvalid1 Hne)
    as (ip & Hip & Hrw).
  destruct (lookup_step (factory (self s)) (rewritten s1 r u host ips ip) host
              eq_refl Halloc) as (rt & s3 & Hlook & _ & Hin & _ & Hcase & _ & Hb).
  exists ip, rt, s3. repeat (split; [done|]). split; [|split].
  - rewrite (RoundTrip_success s req r pu u ips e1 Hvalid Hres).
    fold host s1. unfold mbind at 1, M_bind at 1. rewrite Hrw.
    unfold mbind at 1, M_bind at 1. rewrite Hlook.
    reflexivity.
  - change (hostRTs (self (rewritten s1 r u host ips ip)))
      with (hostRTs (self s)) in Hcase.
    destruct (hostRTs (self s) !! host); [done|].
    destruct Hcase as (_ & Hc & Hs). done.
  - intros Hsep.
    destruct (hostRoundTripper_frame (rewritten s1 r u host ips ip) host rt s3
                Hsep Hlook) as (Hr & Hu & Hc).
    repeat (split; [done|]). intros Hbound. apply Hb; [done|].
    exact Hbound.
Qed.

(** Lines 65 to 70 when the merged set is empty: [rand.Intn(0)] panics. *)
Lemma rewrite_request_empty s req r pu u host ips :
  valid_request (world s) req r pu u →
  merged_ips s host ips = [] →
  rewrite_request req host ips s = Panic "invalid argument to Intn".
Proof.
  unfold merged_ips. intros (Hreq & Hurl & Hu) Hempty.
  unfold rewrite_request, hostIPs_AddAndGet, Request_Clone, alloc_url,
    alloc_request, rand_Intn.
  repeat progress run.
  destruct (time_Now (ext (world s))) as [now e1]. cbn in *.
  destruct (expiring.AddAndGet now host ips (hostIPs (self s))) as [all m].
  cbn in *. subst all. rewrite Hreq. cbn. rewrite Hurl. cbn. rewrite Hu. cbn.
  unfold with_requests, with_urls, with_ext. cbn.
  rewrite !lookup_insert_eq. reflexivity.
Qed.

Lemma merged_ips_elem s host ips ip :
  ip ∈ merged_ips s host ips
  ↔ ip ∈ expiring.current (hostIPs (self s)) host ∨ ip ∈ ips.
Proof. unfold merged_ips, expiring.AddAndGet. cbn. set_solver. Qed.

Lemma merged_ips_NoDup s host ips : NoDup (merged_ips s host ips).
Proof. unfold merged_ips, expiring.AddAndGet. cbn. apply NoDup_elements. Qed.

Lemma merged_ips_nonempty s host ips : ips ≠ [] → merged_ips s host ips ≠ [].
Proof.
  intros Hips Hm. destruct ips as [|ip ips]; [done|].
  assert (ip ∈ merged_ips s host (ip :: ips)) as Hin.
  { apply merged_ips_elem. right. set_solver. }
  rewrite Hm in Hin. by apply not_elem_of_nil in Hin.
Qed.

Lemma wrap64_int64 z : int64 z → wrap64 z = z.
Proof. unfold int64, wrap64. intros Hz. rewrite Z.mod_small; lia. Qed.

(** C3. When the resolver fails, [RoundTrip] returns no response and an
    error that wraps the resolver's; a body the request carries has been
    closed; the registry and the cache are as they were, no transport or
    TLS configuration was made or changed, and the only calls that left
    the transport are the lookup and the close. *)
Theorem RoundTrip_resolution_failure s req r pu u err e1 :
  valid_request (world s) req r pu u →
  LookupIP (url.Hostname u) (ext (world s)) = (inr err, e1) →
  ∃ s',
    RoundTrip req s
    = Done (None, Some (Errorf_w "s3transport: lookup ip: " err)) s'
    ∧ Unwrap (Errorf_w "s3transport: lookup ip: " err) = Some err
    ∧ (∀ b, http.Body r = Some b → b ∈ closed (world s'))
    ∧ self s' = self s
    ∧ transports (world s') = transports (world s)
    ∧ tlsConfigs (world s') = tlsConfigs (world s)
    ∧ requests (world s') = requests (world s)
    ∧ urls (world s') = urls (world s)
    ∧ closed (world s')
      = match http.Body r with
        | Some b => {[b]} ∪ closed (world s)
        | None => closed (world s)
        end
    ∧ calls s'
      = (calls s ++ CallLookupIP (url.Hostname u) ::
           match http.Body r with Some b => [CallClose b] | None => [] end)%list.
Proof.
  intros Hvalid Hres. eexists.
  split; [by apply (RoundTrip_failure s req r pu u)|].
  unfold failed. cbn. split; [done|]. split.
  { intros b ->. cbn. set_solver. }
  destruct (http.Body r); done.
Qed.

(** C7. When the resolver succeeds with at least one IP, what
    [RoundTrip] returns is the pair the delegated transport's RoundTrip
    returns for the rewritten request, as it is; the transport is the one
    the registry holds for the host. *)
Theorem RoundTrip_returns_delegated_result s req r pu u ips e1 :
  valid_request (world s) req r pu u →
  LookupIP (url.Hostname u) (ext (world s)) = (inl ips, e1) →
  ips ≠ [] →
  factory_allocates (factory (self s)) →
  let host := url.Hostname u in
  let s1 := resolved s host e1 in
  let hostReq := new_loc (requests (world s)) in
  ∃ ip rt s3,
    merged_ips s1 host ips !! Z.to_nat (selected_index s1 host ips) = Some ip
    ∧ hostRoundTripper host (rewritten s1 r u host ips ip) = Done rt s3
    ∧ hostRTs (self s3) !! host = Some rt
    ∧ RoundTrip req s
      = Done (Transport_RoundTrip rt hostReq (world s3)).1
          {| self := self s3;
             world := (Transport_RoundTrip rt hostReq (world s3)).2;
             calls := calls s3 ++ [CallRoundTrip rt hostReq] |}.
Proof.
  intros Hvalid Hres Hips Halloc host s1 hostReq.
  destruct (RoundTrip_dispatch s req r pu u ips e1 Hvalid Hres
              (merged_ips_nonempty _ _ _ Hips) Halloc)
    as (ip & rt & s3 & Hip & Hlook & Hin & Hrun & _).
  exists ip, rt, s3. repeat (split; [done|]). rewrite Hrun.
  unfold in_world, dispatching. cbn. fold hostReq.
  by destruct (Transport_RoundTrip rt hostReq (world s3)).
Qed.

(** C9. After a successful resolution the selection
    [ips[rand.Intn(len(ips))]] is within bounds whenever the merged set is
    not empty, and lines 65 to 70 then complete; when the merged set is
    empty nothing guards the selection and [RoundTrip] panics.  The merged
    set is empty exactly when the resolver returned no IP and the cache
    holds none for the host. *)
Theorem selection_in_bounds_iff_nonempty s req r pu u ips e1 :
  valid_request (world s) req r pu u →
  LookupIP (url.Hostname u) (ext (world s)) = (inl ips, e1) →
  let host := url.Hostname u in
  let s1 := resolved s host e1 in
  let merged := merged_ips s1 host ips in
  let i := selected_index s1 host ips in
  (merged ≠ [] →
     ∃ ip, (0 ≤ i < Z.of_nat (length merged))%Z
       ∧ merged !! Z.to_nat i = Some ip
       ∧ rewrite_request req host ips s1
         = Done (new_loc (requests (world s))) (rewritten s1 r u host ips ip))
  ∧ (merged = [] → RoundTrip req s = Panic "invalid argument to Intn")
  ∧ (merged = [] ↔ ips = [] ∧ expiring.current (hostIPs (self s)) host = ∅).
Proof.
  intros Hvalid Hres host s1 merged i.
  assert (Hvalid1 : valid_request (world s1) req r pu u) by exact Hvalid.
  split; [|split].
  - intros Hne.
    destruct (rewrite_request_spec s1 req r pu u host ips Hvalid1 Hne)
      as (ip & Hip & Hrw).
    exists ip. split; [by apply selected_index_in_range|done].
  - intros Hempty. rewrite (RoundTrip_success s req r pu u ips e1 Hvalid Hres).
    fold host s1. unfold mbind at 1, M_bind at 1.
    by rewrite (rewrite_request_empty s1 req r pu u host ips Hvalid1 Hempty).
  - unfold merged, merged_ips, expiring.AddAndGet. cbn.
    rewrite elements_empty_iff. split.
    + intros Hu. apply leibniz_equiv in Hu.
      apply empty_union_L in Hu as [Hc Hl]. split; [|done].
      destruct ips as [|ip ips']; [done|]. set_solver.
    + intros [-> ->]. set_solver.
Qed.

(** C4. When the resolver succeeds with at least one IP, the request
    handed to the delegated transport is a new request, not the caller's:
    its Host is the hostname of the original URL, its URL is a new URL
    whose Host is the string of the selected IP and whose other fields are
    the original's, and its method, header and body are the original's.
    The caller's request and URL, and every other request and URL that
    existed, are as they were.  The transport it is handed to verifies
    certificates against the hostname. *)
Theorem RoundTrip_rewrites_a_clone s req r pu u ips e1 :
  valid_request (world s) req r pu u →
  LookupIP (url.Hostname u) (ext (world s)) = (inl ips, e1) →
  ips ≠ [] →
  factory_separate (factory (self s)) →
  let host := url.Hostname u in
  let s1 := resolved s host e1 in
  let hostReq := new_loc (requests (world s)) in
  let hostURL := new_loc (urls (world s)) in
  ∃ ip rt s3 r',
    RoundTrip req s
    = in_world (Transport_RoundTrip rt hostReq) (dispatching s3 rt hostReq)
    ∧ ip ∈ merged_ips s1 host ips
    ∧ hostReq ≠ req ∧ hostURL ≠ pu
    ∧ requests (world s3) !! hostReq = Some r'
    ∧ http.Host r' = host
    ∧ http.URL r' = Some hostURL
    ∧ http.Method r' = http.Method r
    ∧ http.Header r' = http.Header r
    ∧ http.Body r' = http.Body r
    ∧ urls (world s3) !! hostURL
      = Some {| url.Scheme := url.Scheme u; url.Host := IP_String ip;
                url.Path := url.Path u; url.RawQuery := url.RawQuery u |}
    ∧ requests (world s3) !! req = Some r
    ∧ urls (world s3) !! pu = Some u
    ∧ (∀ q x, requests (world s) !! q = Some x → requests (world s3) !! q = Some x)
    ∧ (∀ q x, urls (world s) !! q = Some x → urls (world s3) !! q = Some x)
    ∧ (registry_bound s → ServerName_of (world s3) rt = Some host).
Proof.
  intros Hvalid Hres Hips Hsep host s1 hostReq hostURL.
  destruct (RoundTrip_dispatch s req r pu u ips e1 Hvalid Hres
              (merged_ips_nonempty _ _ _ Hips)
              (factory_separate_allocates _ Hsep))
    as (ip & rt & s3 & Hip & Hlook & Hin & Hrun & _ & Hframe).
  destruct (Hframe Hsep) as (Hr & Hu & _ & Hname).
  destruct Hvalid as (Hreq & Hurl & Hpu).
  assert (Hfr : ∀ q x, requests (world s) !! q = Some x → hostReq ≠ q).
  { intros q x Hq <-. unfold hostReq in Hq. by rewrite new_loc_fresh in Hq. }
  assert (Hfu : ∀ q x, urls (world s) !! q = Some x → hostURL ≠ q).
  { intros q x Hq <-. unfold hostURL in Hq. by rewrite new_loc_fresh in Hq. }
  exists ip, rt, s3, (http.set_Host (http.set_URL r (Some hostURL)) host).
  split; [done|]. split; [by eapply list_elem_of_lookup_2|].
  split; [by eapply Hfr|]. split; [by eapply Hfu|].
  rewrite Hr, Hu. cbn. fold hostReq hostURL.
  rewrite !lookup_insert_eq. repeat (split; [done|]).
  split; [rewrite lookup_insert_ne; eauto|].
  split; [rewrite lookup_insert_ne; eauto|].
  split; [intros q x Hq; rewrite lookup_insert_ne; eauto|].
  split; [intros q x Hq; rewrite lookup_insert_ne; eauto|].
  done.
Qed.

Lemma length_filter_split {A} (P : A → Prop) `{!∀ a, Decision (P a)}
    (l : list A) :
  (length (filter P l) + length (filter (λ a, ¬ P a) l) = length l)%nat.
Proof.
  induction l as [|a l IH]; [done|]. rewrite !filter_cons.
  destruct (decide (P a)) as [Ha|Ha].
  - rewrite decide_False by (intros Hn; by apply Hn). cbn. lia.
  - rewrite decide_True by done. cbn. lia.
Qed.

Lemma lookup_Z_in_range {A} (l : list A) (o : Z) :
  (0 ≤ o < Z.of_nat (length l))%Z → is_Some (l !! Z.to_nat o).
Proof. intros Ho. apply lookup_lt_is_Some_2. lia. Qed.

Lemma Z_to_nat_eq_iff (o : Z) (j : nat) :
  (0 ≤ o)%Z → Z.to_nat o = j ↔ o = Z.of_nat j.
Proof. lia. Qed.

(** Outcomes below [n], each taken by [c] elements, account for all. *)
Lemma count_partition {A} (g : A → nat) (c : nat) : ∀ (n : nat) (l : list A),
  (∀ a, a ∈ l → (g a < n)%nat) →
  (∀ j, (j < n)%nat → length (filter (λ a, g a = j) l) = c) →
  (c * n = length l)%nat.
Proof.
  induction n as [|n IH]; intros l Hlt Hc.
  - destruct l as [|a l]; [cbn; lia|].
    specialize (Hlt a (list_elem_of_here _ _)). lia.
  - rewrite <- (length_filter_split (λ a, g a = n) l).
    rewrite (Hc n) by lia.
    rewrite <- (IH (filter (λ a, ¬ g a = n) l)); [lia| |].
    + intros a [Ha Hin]%list_elem_of_filter. specialize (Hlt a Hin). lia.
    + intros j Hj. rewrite list_filter_filter_l by (intros a ->; lia).
      apply Hc. lia.
Qed.

(** C5. The IP written into the dispatched URL is the element of the
    merged set at the index [rand.Intn] returns for the set's length, so
    it is one of the set; the merged set is what the cache held for the
    host together with the resolved IPs and lists no IP twice.  When
    [rand.Intn] is uniform, each index being its outcome in the same
    number [c] of the equally likely collaborator states [Ω], every IP of
    the merged set is the one dispatched to in exactly [c] of those
    states, and [c] times the size of the set is the number of states:
    each IP is selected with probability one over the size of the set. *)
Theorem RoundTrip_selects_uniformly
    s req r pu u ips (Ω : list E) (c : nat) :
  valid_request (world s) req r pu u →
  ips ≠ [] →
  factory_separate (factory (self s)) →
  let host := url.Hostname u in
  let hostReq := new_loc (requests (world s)) in
  let hostURL := new_loc (urls (world s)) in
  let merged := merged_ips s host ips in
  let n := Z.of_nat (length merged) in
  (∀ ω, ω ∈ Ω → (LookupIP host ω).1 = inl ips) →
  Intn_uniform host n Ω c →
  ∃ sel : E → IP,
    (∀ ω, ω ∈ Ω →
       ∃ rt s3,
         RoundTrip req (with_seed s ω)
         = in_world (Transport_RoundTrip rt hostReq) (dispatching s3 rt hostReq)
         ∧ (0 ≤ Intn_outcome host n ω < n)%Z
         ∧ merged !! Z.to_nat (Intn_outcome host n ω) = Some (sel ω)
         ∧ sel ω ∈ merged
         ∧ (url.Host <$> urls (world s3) !! hostURL) = Some (IP_String (sel ω)))
    ∧ (∀ x, x ∈ merged ↔ x ∈ expiring.current (hostIPs (self s)) host ∨ x ∈ ips)
    ∧ NoDup merged
    ∧ (∀ x, x ∈ merged → length (filter (λ ω, sel ω = x) Ω) = c)
    ∧ (c * length merged = length Ω)%nat.
Proof.
  intros Hvalid Hips Hsep host hostReq hostURL merged n Hres Hunif.
  pose proof (merged_ips_nonempty s host ips Hips) as Hne. fold merged in Hne.
  assert (Hndef : n = Z.of_nat (length merged)) by reflexivity.
  assert (Hn : (0 < n)%Z).
  { unfold n. destruct merged; [done|]. cbn. lia. }
  assert (Hrange : ∀ ω, (0 ≤ Intn_outcome host n ω < n)%Z).
  { intros ω. unfold Intn_outcome. by apply Z.mod_pos_bound. }
  set (sel := λ ω : E,
    default ([] : IP) (merged !! Z.to_nat (Intn_outcome host n ω) : option IP)).
  assert (Hsel : ∀ ω, merged !! Z.to_nat (Intn_outcome host n ω) = Some (sel ω)).
  { intros ω. unfold sel. cbv beta.
    destruct (lookup_Z_in_range merged _ (Hrange ω)) as [ip Hip].
    by rewrite Hip. }
  exists sel. split; [|split; [|split; [|split]]].
  - intros ω Hω. specialize (Hres ω Hω).
    destruct (LookupIP host ω) as [res e1] eqn:HL. cbn in Hres. subst res.
    assert (Hout : Intn_outcome host n ω
                   = selected_index (resolved (with_seed s ω) host e1) host ips).
    { unfold Intn_outcome. rewrite HL. reflexivity. }
    assert (Hvalid' : valid_request (world (with_seed s ω)) req r pu u)
      by exact Hvalid.
    assert (HL' : LookupIP (url.Hostname u) (ext (world (with_seed s ω)))
                  = (inl ips, e1)) by exact HL.
    destruct (RoundTrip_dispatch (with_seed s ω) req r pu u ips e1 Hvalid' HL'
                (merged_ips_nonempty _ _ _ Hips)
                (factory_separate_allocates _ Hsep))
      as (ip & rt & s3 & Hip & _ & _ & Hrun & _ & Hframe).
    destruct (Hframe Hsep) as (_ & Hu & _).
    change (merged !! Z.to_nat
              (selected_index (resolved (with_seed s ω) host e1) host ips)
            = Some ip) in Hip.
    rewrite <- Hout, Hsel in Hip. injection Hip as <-.
    exists rt, s3. split; [exact Hrun|]. split; [apply Hrange|].
    split; [apply Hsel|]. split; [eapply list_elem_of_lookup_2, Hsel|].
    rewrite Hu. cbn. fold hostURL. by rewrite lookup_insert_eq.
  - intros x. apply merged_ips_elem.
  - apply merged_ips_NoDup.
  - intros x [j Hj]%list_elem_of_lookup_1.
    pose proof (lookup_lt_Some _ _ _ Hj) as Hlt.
    rewrite <- (Hunif (Z.of_nat j)) by (split; [lia|apply inj_lt, Hlt]).
    f_equal. apply list_filter_iff. intros ω. split.
    + intros Hx. pose proof (Hsel ω) as Hω. rewrite Hx in Hω.
      apply Z_to_nat_eq_iff; [apply Hrange|].
      exact (NoDup_lookup _ _ _ _ (merged_ips_NoDup s host ips) Hω Hj).
    + intros Hx. pose proof (Hsel ω) as Hω. rewrite Hx, Nat2Z.id in Hω.
      congruence.
  - apply (count_partition (λ ω, Z.to_nat (Intn_outcome host n ω))).
    + intros ω _. apply Nat2Z.inj_lt. rewrite Z2Nat.id by apply Hrange.
      apply Hrange.
    + intros j Hj.
      rewrite <- (Hunif (Z.of_nat j)) by (split; [lia|apply inj_lt, Hj]).
      f_equal. apply list_filter_iff. intros ω.
      apply Z_to_nat_eq_iff, Hrange.
Qed.


(** C8. The template transport's IdleConnTimeout is
    [expireAfter + 2*expireLoopEvery], hence at least that, and so is the
    IdleConnTimeout of every transport the default factory hands out.  The
    two durations and the arithmetic on them fit in an int64, as they must
    for the Go constant expression to compile. *)
Theorem httpTransport_IdleConnTimeout :
  int64 (2 * expireLoopEvery) →
  int64 (expireAfter + 2 * expireLoopEvery) →
  http.IdleConnTimeout httpTransport = (expireAfter + 2 * expireLoopEvery)%Z
  ∧ (expireAfter + 2 * expireLoopEvery ≤ http.IdleConnTimeout httpTransport)%Z
  ∧ ∀ w : World E,
      (http.IdleConnTimeout <$>
         transports (Default_factory w).2 !! (Default_factory w).1)
      = Some (expireAfter + 2 * expireLoopEvery)%Z.
Proof.
  intros H2 Hsum.
  assert (Heq : http.IdleConnTimeout httpTransport
                = (expireAfter + 2 * expireLoopEvery)%Z).
  { unfold httpTransport. cbn [http.IdleConnTimeout].
    by rewrite (wrap64_int64 _ H2), (wrap64_int64 _ Hsum). }
  split; [done|]. split; [lia|].
  intros w. unfold Default_factory, Transport_Clone. cbn.
  rewrite lookup_insert_eq. cbn. by rewrite (wrap64_int64 _ H2), (wrap64_int64 _ Hsum).
Qed.

(** ** More about the registry *)

Lemma same_settings_set_TLSClientConfig (tr : http.Transport) (c : option loc) :
  same_settings (http.set_TLSClientConfig tr c) tr.
Proof. reflexivity. Qed.

(** What a miss writes, beside what the factory itself did. *)
Lemma hostRoundTripper_miss_frame s host :
  hostRTs (self s) !! host = None →
  factory_allocates (factory (self s)) →
  let rt := (factory (self s) (world s)).1 in
  let w1 := (factory (self s) (world s)).2 in
  ∃ s' tr tr' c,
    hostRoundTripper host s = Done rt s'
    ∧ transports w1 !! rt = Some tr
    ∧ transports (world s') !! rt = Some tr'
    ∧ same_settings tr' tr
    ∧ http.TLSClientConfig tr' = Some c
    ∧ match http.TLSClientConfig tr with
      | Some c0 => c = c0
      | None => c = new_loc (tlsConfigs w1)
      end
    ∧ tlsConfigs (world s') !! c = Some (tls.mkConfig host)
    ∧ (∀ q, q ≠ rt → transports (world s') !! q = transports w1 !! q)
    ∧ (∀ c', c' ≠ c → tlsConfigs (world s') !! c' = tlsConfigs w1 !! c')
    ∧ requests (world s') = requests w1 ∧ urls (world s') = urls w1
    ∧ closed (world s') = closed w1 ∧ ext (world s') = ext w1
    ∧ hostIPs (self s') = hostIPs (self s).
Proof.
  intros Hrt Hf. unfold hostRoundTripper. run. rewrite Hrt.
  destruct (Hf (world s)) as (tr & Htr & Hc).
  destruct (factory (self s) (world s)) as [p w1] eqn:Hfw. cbn in *.
  rewrite Htr.
  destruct (http.TLSClientConfig tr) as [c|] eqn:Hcfg.
  - cbn. rewrite Htr, Hcfg. run. destruct Hc as [cfg Hc]. rewrite Hc. cbn.
    exists
      {| self := {| factory := factory (self s);
                    hostRTs := <[host:=p]> (hostRTs (self s));
                    hostIPs := hostIPs (self s) |};
         world := with_tlsConfigs <[c:=tls.set_ServerName cfg host]> w1;
         calls := calls s ++ [CallFactory host p] |}, tr, tr, c.
    cbn. rewrite Hcfg, lookup_insert_eq.
    repeat (split; [done|]). split; [|done].
    intros c' Hc'. by rewrite lookup_insert_ne.
  - unfold alloc_tlsConfig. run. rewrite lookup_insert_eq. cbn.
    rewrite lookup_insert_eq. cbn.
    eexists _, tr, _, (new_loc (tlsConfigs w1)).
    split; [reflexivity|]. cbn. rewrite !lookup_insert_eq.
    split; [done|]. split; [reflexivity|].
    split; [apply same_settings_set_TLSClientConfig|].
    rewrite Hcfg. repeat (split; [done|]). split.
    { intros q Hq. by rewrite lookup_insert_ne. }
    split; [|done]. intros c' Hc'. by rewrite !lookup_insert_ne.
Qed.

(** C2. A lookup returns the transport already stored for the host when
    there is one, and changes nothing; otherwise it calls the factory once,
    stores what the factory returned and returns it: the transport the
    factory made is in the state the lookup leaves, with the settings the
    factory gave it and bound to the host, and the rest of that state is
    what the factory call left.  Whatever lookups come later, a lookup for
    the same host returns that same transport, every stored transport
    stays stored under its host, and the log holds at most one factory
    call per host. *)
Theorem hostRoundTripper_once
    (f : World E → loc * World E) (w0 : World E)
    (before later : list string) (h : string) :
  factory_allocates f →
  ∃ rts s rt s' rts2 s2,
    lookup_all before (New f w0) = Done rts s
    ∧ hostRoundTripper h s = Done rt s'
    ∧ hostRTs (self s') !! h = Some rt
    ∧ match hostRTs (self s) !! h with
      | Some p => rt = p ∧ s' = s
      | None => rt = (f (world s)).1
                ∧ calls s' = (calls s ++ [CallFactory h rt])%list
                ∧ hostRTs (self s') = <[h := rt]> (hostRTs (self s))
                ∧ ∃ tr tr',
                    transports (f (world s)).2 !! rt = Some tr
                    ∧ transports (world s') !! rt = Some tr'
                    ∧ same_settings tr' tr
                    ∧ ServerName_of (world s') rt = Some h
                    ∧ (∀ q, q ≠ rt → transports (world s') !! q
                                     = transports (f (world s)).2 !! q)
                    ∧ requests (world s') = requests (f (world s)).2
                    ∧ urls (world s') = urls (f (world s)).2
                    ∧ closed (world s') = closed (f (world s)).2
                    ∧ ext (world s') = ext (f (world s)).2
      end
    ∧ hostRoundTripper h s' = Done rt s'
    ∧ lookup_all later s' = Done rts2 s2
    ∧ hostRoundTripper h s2 = Done rt s2
    ∧ (∀ k p, hostRTs (self s') !! k = Some p → hostRTs (self s2) !! k = Some p)
    ∧ (∀ k, factory_calls_for k (calls s2) ≤ 1)%nat.
Proof.
  intros Halloc.
  destruct (lookup_run f before (New f w0) eq_refl Halloc)
    as (rts & s & Hrun & Hf & _ & Hm & _).
  specialize (Hm (New_calls_match_registry f w0)).
  destruct (lookup_step f s h Hf Halloc)
    as (rt & s' & Hstep & Hf' & Hin & _ & Hcase & Hm' & _).
  specialize (Hm' Hm).
  destruct (lookup_run f later s' Hf' Halloc)
    as (rts2 & s2 & Hrun2 & _ & Hkeep & Hm2 & _).
  specialize (Hm2 Hm').
  exists rts, s, rt, s', rts2, s2. repeat (split; [done|]).
  split.
  { destruct (hostRTs (self s) !! h) eqn:Hh; [done|].
    destruct Hcase as (Hrt & Hcalls & Hself).
    split; [exact Hrt|]. split; [exact Hcalls|].
    split; [by rewrite Hself|].
    destruct (hostRoundTripper_miss s h Hh) as (sa & Hruna & _ & _ & _ & _ & _
                                                & _ & Hname & _).
    { by rewrite Hf. }
    destruct (hostRoundTripper_miss_frame s h Hh)
      as (sb & tr & tr' & c & Hrunb & Htr & Htr' & Hsame & _ & _ & _ & Hts & _
          & Hr & Hu & Hcl & He & _).
    { by rewrite Hf. }
    rewrite Hf in *. rewrite Hstep in Hruna, Hrunb.
    injection Hruna as _ <-. injection Hrunb as _ <-. subst rt.
    exists tr, tr'. repeat (split; [assumption|]). assumption. }
  split; [by apply hostRoundTripper_hit|]. split; [done|].
  split; [by apply hostRoundTripper_hit, Hkeep|]. split; [done|].
  intros k. rewrite Hm2. destruct (hostRTs (self s2) !! k); lia.
Qed.

(** X1. What a lookup writes.  A hit writes nothing.  A miss writes two
    things and no more, beside what the factory itself did: a
    TLSClientConfig pointer into the new transport if the factory left it
    nil, and the ServerName of that transport's configuration.  The new
    transport keeps every other setting the factory gave it and a
    configuration pointer the factory set; all other transports and
    configurations, and all requests, URLs and bodies, are as the factory
    left them.  Neither touches the cache. *)
Theorem hostRoundTripper_writes s host :
  factory_allocates (factory (self s)) →
  let w1 := (factory (self s) (world s)).2 in
  ∃ rt s',
    hostRoundTripper host s = Done rt s'
    ∧ hostIPs (self s') = hostIPs (self s)
    ∧ match hostRTs (self s) !! host with
      | Some p => rt = p ∧ s' = s
      | None =>
          rt = (factory (self s) (world s)).1
          ∧ ∃ tr tr' c,
              transports w1 !! rt = Some tr
              ∧ transports (world s') !! rt = Some tr'
              ∧ same_settings tr' tr
              ∧ http.TLSClientConfig tr' = Some c
              ∧ match http.TLSClientConfig tr with
                | Some c0 => c = c0
                | None => c = new_loc (tlsConfigs w1)
                end
              ∧ tlsConfigs (world s') !! c = Some (tls.mkConfig host)
              ∧ (∀ q, q ≠ rt → transports (world s') !! q = transports w1 !! q)
              ∧ (∀ c', c' ≠ c →
                       tlsConfigs (world s') !! c' = tlsConfigs w1 !! c')
              ∧ requests (world s') = requests w1
              ∧ urls (world s') = urls w1
              ∧ closed (world s') = closed w1
              ∧ ext (world s') = ext w1
      end.
Proof.
  intros Halloc w1. destruct (hostRTs (self s) !! host) as [p|] eqn:Hh.
  - exists p, s. split; [by apply hostRoundTripper_hit|]. by split.
  - destruct (hostRoundTripper_miss_frame s host Hh Halloc)
      as (s' & tr & tr' & c & Hrun & Htr & Htr' & Hsame & Hc & Hwhich & Hcfg
          & Hts & Hcs & Hr & Hu & Hcl & He & Hips).
    exists (factory (self s) (world s)).1, s'. split; [exact Hrun|].
    split; [exact Hips|]. split; [reflexivity|].
    exists tr, tr', c. fold w1 in Htr, Hwhich, Hts, Hcs, Hr, Hu, Hcl, He.
    repeat (split; [assumption|]). assumption.
Qed.

(** One lookup leaves the transports and configurations that existed
    before it as they were, when the factory keeps its contract. *)
Lemma hostRoundTripper_keeps s host rt s' :
  factory_separate (factory (self s)) →
  hostRoundTripper host s = Done rt s' →
  (∀ q tr, transports (world s) !! q = Some tr →
           transports (world s') !! q = Some tr)
  ∧ (∀ c cfg, tlsConfigs (world s) !! c = Some cfg →
              tlsConfigs (world s') !! c = Some cfg).
Proof.
  intros Hsep Hrun. destruct (hostRTs (self s) !! host) as [p|] eqn:Hh.
  - rewrite (hostRoundTripper_hit _ _ _ Hh) in Hrun. by injection Hrun as _ <-.
  - destruct (hostRoundTripper_miss_frame s host Hh
                (factory_separate_allocates _ Hsep))
      as (s2 & tr & tr' & c & Hrun2 & Htr & _ & _ & _ & Hc & _ & Hts & Hcs & _).
    rewrite Hrun in Hrun2. injection Hrun2 as Hrt <-.
    specialize (Hsep (world s)).
    destruct (factory (self s) (world s)) as [p w1]. cbn in *. subst rt.
    destruct Hsep as (Hnew & Hold & Hcfgs & _ & _ & _ & trn & Htrn & Hcn).
    rewrite Htr in Htrn. injection Htrn as <-. split.
    + intros q tq Hq. assert (q ≠ p) by congruence.
      by rewrite Hts, Hold.
    + intros c0 cfg Hc0. assert (c0 ≠ c) as Hne.
      { intros ->. destruct (http.TLSClientConfig tr) as [c1|].
        - subst c1. destruct Hcn as [Hcn _]. congruence.
        - subst c. rewrite <- (Hcfgs (new_loc (tlsConfigs w1))) in Hc0 by eauto.
          by rewrite new_loc_fresh in Hc0. }
      rewrite Hcs by done. rewrite Hcfgs by eauto. done.
Qed.

(** A property every lookup keeps holds after any history of lookups. *)
Lemma lookup_run_invariant (f : World E → loc * World E)
    (P : State E → Prop) hs :
  factory_allocates f →
  (∀ s h rt s', factory (self s) = f → P s →
                hostRoundTripper h s = Done rt s' → P s') →
  ∀ s, factory (self s) = f → P s →
  ∃ rts s', lookup_all hs s = Done rts s' ∧ factory (self s') = f ∧ P s'.
Proof.
  intros Halloc Hstep. induction hs as [|h hs IH]; intros s Hf HP.
  - exists [], s. by cbn.
  - destruct (lookup_step f s h Hf Halloc) as (rt & s1 & Hrun & Hf1 & _).
    destruct (IH s1 Hf1 (Hstep s h rt s1 Hf HP Hrun)) as (rts & s2 & Hrun2 & Hf2 & HP2).
    exists (rt :: rts), s2. cbn. unfold mbind, M_bind. rewrite Hrun, Hrun2.
    by cbn.
Qed.

(** X2. Under the factory's contract, no history of lookups changes a
    transport or a TLS configuration that existed when [New] was called:
    lookups write to what they create, never to what they find. *)
Theorem lookups_keep_existing_objects
    (f : World E → loc * World E) (w0 : World E) (hs : list string) :
  factory_separate f →
  ∃ rts s,
    lookup_all hs (New f w0) = Done rts s
    ∧ (∀ q tr, transports w0 !! q = Some tr → transports (world s) !! q = Some tr)
    ∧ (∀ c cfg, tlsConfigs w0 !! c = Some cfg →
                tlsConfigs (world s) !! c = Some cfg).
Proof.
  intros Hsep.
  destruct (lookup_run_invariant f
              (λ s, (∀ q tr, transports w0 !! q = Some tr →
                             transports (world s) !! q = Some tr)
                    ∧ (∀ c cfg, tlsConfigs w0 !! c = Some cfg →
                                tlsConfigs (world s) !! c = Some cfg))
              hs (factory_separate_allocates f Hsep))
    with (s := New f w0) as (rts & s & Hrun & _ & HP).
  - intros s h rt s' Hf [Ht Hc] Hrun. rewrite <- Hf in Hsep.
    destruct (hostRoundTripper_keeps s h rt s' Hsep Hrun) as [Ht' Hc'].
    split; eauto.
  - reflexivity.
  - by split.
  - by exists rts, s.
Qed.

Lemma same_settings_trans (a b c : http.Transport) :
  same_settings a b → same_settings b c → same_settings a c.
Proof. unfold same_settings. congruence. Qed.

(** X3. The default transport, with nothing assumed: after any history
    of lookups, the transport a lookup returns for [h] verifies against
    [h], every transport in the registry verifies against its host and
    has the settings of [httpTransport] (idle-connection limits, timeouts,
    HTTP/2 off), and the transports and configurations that existed
    before, [httpTransport] among them, are unchanged. *)
Theorem Default_transports_bound_and_configured
    (w0 : World E) (hs : list string) (h : string) :
  ∃ rts s rt s' tr,
    lookup_all hs (Default w0) = Done rts s
    ∧ hostRoundTripper h s = Done rt s'
    ∧ ServerName_of (world s') rt = Some h
    ∧ registry_bound s'
    ∧ transports (world s') !! rt = Some tr
    ∧ same_settings tr httpTransport
    ∧ (∀ k p, hostRTs (self s') !! k = Some p →
         ∃ tp, transports (world s') !! p = Some tp
               ∧ same_settings tp httpTransport)
    ∧ (∀ q tq, transports w0 !! q = Some tq →
               transports (world s') !! q = Some tq)
    ∧ (∀ c cfg, tlsConfigs w0 !! c = Some cfg →
                tlsConfigs (world s') !! c = Some cfg).
Proof.
  pose proof (Transport_Clone_separate httpTransport (Some (tls.mkConfig "")))
    as Hsep.
  change (factory_separate Default_factory) in Hsep.
  pose proof (factory_separate_allocates _ Hsep) as Halloc.
  set (P := λ s : State E,
    registry_bound s
    ∧ (∀ k p, hostRTs (self s) !! k = Some p →
         ∃ tp, transports (world s) !! p = Some tp
               ∧ same_settings tp httpTransport)
    ∧ (∀ q tq, transports w0 !! q = Some tq →
               transports (world s) !! q = Some tq)
    ∧ (∀ c cfg, tlsConfigs w0 !! c = Some cfg →
                tlsConfigs (world s) !! c = Some cfg)).
  assert (Hstep : ∀ s h rt s', factory (self s) = Default_factory → P s →
                    hostRoundTripper h s = Done rt s' → P s').
  { intros s k rt s' Hf (Hb & Hset & Ht & Hc) Hrun.
    destruct (lookup_step Default_factory s k Hf Halloc)
      as (rt1 & s1 & Hrun1 & _ & _ & _ & Hcase & _ & Hb1).
    rewrite Hrun in Hrun1. injection Hrun1 as <- <-.
    rewrite <- Hf in Hsep.
    destruct (hostRoundTripper_keeps s k rt s' Hsep Hrun) as [Ht' Hc'].
    split; [by apply Hb1; [rewrite <- Hf|]|]. split; [|split; eauto].
    destruct (hostRTs (self s) !! k) as [p|] eqn:Hk.
    - destruct Hcase as [_ ->]. exact Hset.
    - destruct Hcase as (_ & _ & Hself).
      destruct (hostRoundTripper_miss_frame s k Hk) as
        (s2 & tr & tr' & c & Hrun2 & Htr & Htr' & Hsame & _).
      { by rewrite Hf. }
      rewrite Hrun in Hrun2. injection Hrun2 as Hrt <-.
      intros k' p'. rewrite Hself. cbn. destruct (decide (k = k')) as [->|Hne].
      + rewrite lookup_insert_eq. intros [= <-]. exists tr'.
        split; [by rewrite Hrt|]. eapply same_settings_trans; [exact Hsame|].
        revert Htr. rewrite Hf. unfold Default_factory, Transport_Clone. cbn.
        rewrite lookup_insert_eq. intros [= <-].
        apply same_settings_set_TLSClientConfig.
      + rewrite lookup_insert_ne by done. intros Hp'.
        destruct (Hset k' p' Hp') as (tp & Htp & Hs). exists tp. eauto. }
  destruct (lookup_run_invariant Default_factory P hs Halloc Hstep (Default w0))
    as (rts & s & Hrun & Hf & HP).
  { reflexivity. }
  { split; [apply New_registry_bound|]. split; [|by split].
    intros k p. cbn. by rewrite lookup_empty. }
  destruct (lookup_step Default_factory s h Hf Halloc)
    as (rt & s' & Hrun' & _ & Hin & _).
  destruct (Hstep s h rt s' Hf HP Hrun') as (Hb & Hset & Ht & Hc).
  destruct (Hset h rt Hin) as (tr & Htr & Hs).
  exists rts, s, rt, s', tr. split; [exact Hrun|]. split; [exact Hrun'|].
  split; [exact (Hb h rt Hin)|]. split; [exact Hb|]. split; [exact Htr|].
  split; [exact Hs|]. split; [exact Hset|]. by split.
Qed.

(** X4. The hazard behind the factory's contract.  If the transport the
    factory returns for a new host points at the TLS configuration that a
    transport already in the registry uses, the lookup rebinds that
    configuration: the earlier host's transport now verifies against the
    new host, and the registry is no longer bound. *)
Theorem shared_TLSClientConfig_rebinds s h1 h2 q tr trq c :
  hostRTs (self s) !! h2 = None →
  hostRTs (self s) !! h1 = Some q →
  transports (factory (self s) (world s)).2 !! (factory (self s) (world s)).1
    = Some tr →
  http.TLSClientConfig tr = Some c →
  is_Some (tlsConfigs (factory (self s) (world s)).2 !! c) →
  transports (factory (self s) (world s)).2 !! q = Some trq →
  http.TLSClientConfig trq = Some c →
  ∃ s', hostRoundTripper h2 s = Done (factory (self s) (world s)).1 s'
    ∧ hostRTs (self s') !! h1 = Some q
    ∧ ServerName_of (world s') q = Some h2
    ∧ h1 ≠ h2
    ∧ ¬ registry_bound s'.
Proof.
  intros Hh2 Hh1 Htr Hc [cfg Hcfg] Htrq Hcq.
  assert (Hne : h1 ≠ h2) by congruence.
  unfold hostRoundTripper. run. rewrite Hh2.
  destruct (factory (self s) (world s)) as [p w1]. cbn in *.
  rewrite Htr. cbn. rewrite Hc. cbn. rewrite Htr. cbn. rewrite Hc. run.
  rewrite Hcfg. cbn. eexists. split; [reflexivity|]. cbn.
  assert (Hname : ServerName_of
            (with_tlsConfigs <[c:=tls.set_ServerName cfg h2]> w1) q = Some h2).
  { unfold ServerName_of. cbn. rewrite Htrq. cbn. rewrite Hcq. cbn.
    by rewrite lookup_insert_eq. }
  split; [by rewrite lookup_insert_ne|]. split; [exact Hname|].
  split; [done|]. intros Hb. specialize (Hb h1 q). cbn in Hb.
  rewrite lookup_insert_ne in Hb by done. specialize (Hb Hh1).
  rewrite Hname in Hb. congruence.
Qed.

(** ** More about RoundTrip *)

(** Whatever the factory, a lookup that returns has stored what it
    returns and has taken nothing out of the registry. *)
Lemma hostRoundTripper_Done s host rt s' :
  hostRoundTripper host s = Done rt s' →
  hostRTs (self s') !! host = Some rt
  ∧ (∀ k p, hostRTs (self s) !! k = Some p → hostRTs (self s') !! k = Some p)
  ∧ factory (self s') = factory (self s)
  ∧ hostIPs (self s') = hostIPs (self s)
  ∧ (calls_match_registry s → calls_match_registry s').
Proof.
  intros Hrun. destruct (hostRTs (self s) !! host) as [p|] eqn:Hh.
  - rewrite (hostRoundTripper_hit _ _ _ Hh) in Hrun. injection Hrun as <- <-.
    by repeat split.
  - revert Hrun. unfold hostRoundTripper. run. rewrite Hh.
    destruct (factory (self s) (world s)) as [q w1]. cbn.
    destruct (transports w1 !! q) as [tr|] eqn:Htr; [|discriminate]. cbn.
    assert (Hgoal : ∀ w2,
      Done (E:=E) q
        {| self := {| factory := factory (self s);
                      hostRTs := <[host:=q]> (hostRTs (self s));
                      hostIPs := hostIPs (self s) |};
           world := w2; calls := calls s ++ [CallFactory host q] |}
      = Done rt s' →
      hostRTs (self s') !! host = Some rt
      ∧ (∀ k p, hostRTs (self s) !! k = Some p → hostRTs (self s') !! k = Some p)
      ∧ factory (self s') = factory (self s)
      ∧ hostIPs (self s') = hostIPs (self s)
      ∧ (calls_match_registry s → calls_match_registry s')).
    { intros w2 [= <- <-]. cbn. split; [apply lookup_insert_eq|]. split.
      { intros k p Hk. rewrite lookup_insert_ne; [done|]. congruence. }
      repeat (split; [done|]). intros Hm k. cbn [calls self hostRTs].
      rewrite factory_calls_for_snoc, Hm. case_decide as Hk.
      - subst k. by rewrite Hh, lookup_insert_eq.
      - rewrite lookup_insert_ne by done.
        destruct (hostRTs (self s) !! k); lia. }
    destruct (http.TLSClientConfig tr) as [c|] eqn:Hc.
    + cbn. rewrite Htr. cbn. rewrite Hc. run.
      destruct (tlsConfigs w1 !! c) as [cfg|]; [|discriminate]. cbn.
      apply Hgoal.
    + unfold alloc_tlsConfig. run. rewrite lookup_insert_eq. cbn.
      rewrite lookup_insert_eq. cbn. apply Hgoal.
Qed.

Lemma factory_calls_for_app k evs evs' :
  factory_calls_for k (evs ++ evs')
  = (factory_calls_for k evs + factory_calls_for k evs')%nat.
Proof. unfold factory_calls_for. by rewrite List.filter_app, length_app. Qed.

(** Without a request and a URL to read, the first line panics. *)
Lemma RoundTrip_panics_unless_valid s req :
  (∀ r pu u, ¬ valid_request (world s) req r pu u) →
  RoundTrip req s = Panic "invalid memory address or nil pointer dereference".
Proof.
  intros Hinvalid. unfold RoundTrip.
  unfold mbind at 1, M_bind at 1, deref at 1.
  destruct (requests (world s) !! req) as [r|] eqn:Hreq; [|reflexivity].
  unfold mbind at 1, M_bind at 1, deref_opt.
  destruct (http.URL r) as [pu|] eqn:Hurl; [|reflexivity].
  unfold deref at 1.
  destruct (urls (world s) !! pu) as [u|] eqn:Hu; [|reflexivity].
  exfalso. by apply (Hinvalid r pu u).
Qed.

(** The two ways in which [RoundTrip] returns. *)
Lemma RoundTrip_Done_cases s req res s' :
  RoundTrip req s = Done res s' →
  ∃ r pu u,
    valid_request (world s) req r pu u
    ∧ ((∃ err e1,
          LookupIP (url.Hostname u) (ext (world s)) = (inr err, e1)
          ∧ res = (None, Some (Errorf_w "s3transport: lookup ip: " err))
          ∧ s' = failed s (url.Hostname u) e1 (http.Body r))
       ∨ (∃ ips e1 ip rt s3,
            LookupIP (url.Hostname u) (ext (world s)) = (inl ips, e1)
            ∧ merged_ips (resolved s (url.Hostname u) e1) (url.Hostname u) ips
              !! Z.to_nat (selected_index (resolved s (url.Hostname u) e1)
                             (url.Hostname u) ips) = Some ip
            ∧ hostRoundTripper (url.Hostname u)
                (rewritten (resolved s (url.Hostname u) e1) r u
                   (url.Hostname u) ips ip) = Done rt s3
            ∧ hostRTs (self s3) !! url.Hostname u = Some rt
            ∧ res = (Transport_RoundTrip rt (new_loc (requests (world s)))
                       (world s3)).1
            ∧ s' = {| self := self s3;
                      world := (Transport_RoundTrip rt
                                  (new_loc (requests (world s))) (world s3)).2;
                      calls := calls s3
                        ++ [CallRoundTrip rt (new_loc (requests (world s)))] |})).
Proof.
  intros Hrun.
  assert (Hpanic : (∀ r pu u, ¬ valid_request (world s) req r pu u) → False).
  { intros Hinvalid. by rewrite (RoundTrip_panics_unless_valid s req Hinvalid) in Hrun. }
  destruct (requests (world s) !! req) as [r|] eqn:Hreq;
    [|exfalso; apply Hpanic; intros r pu u (H1 & _); congruence].
  destruct (http.URL r) as [pu|] eqn:Hurl;
    [|exfalso; apply Hpanic; intros r' pu u (H1 & H2 & _); congruence].
  destruct (urls (world s) !! pu) as [u|] eqn:Hu;
    [|exfalso; apply Hpanic; intros r' pu' u (H1 & H2 & H3); congruence].
  assert (Hvalid : valid_request (world s) req r pu u) by done.
  exists r, pu, u. split; [done|].
  destruct (LookupIP (url.Hostname u) (ext (world s))) as [[ips|err] e1] eqn:Hres.
  - right.
    rewrite (RoundTrip_success s req r pu u ips e1 Hvalid Hres) in Hrun.
    set (host := url.Hostname u) in *. set (s1 := resolved s host e1) in *.
    assert (Hvalid1 : valid_request (world s1) req r pu u) by exact Hvalid.
    destruct (merged_ips s1 host ips) as [|ip0 rest] eqn:Hm.
    { revert Hrun. unfold mbind at 1, M_bind at 1.
      by rewrite (rewrite_request_empty s1 req r pu u host ips Hvalid1 Hm). }
    assert (Hne : merged_ips s1 host ips ≠ []) by (by rewrite Hm).
    destruct (rewrite_request_spec s1 req r pu u host ips Hvalid1 Hne)
      as (ip & Hip & Hrw).
    revert Hrun. unfold mbind at 1, M_bind at 1. rewrite Hrw.
    unfold mbind at 1, M_bind at 1.
    destruct (hostRoundTripper host (rewritten s1 r u host ips ip))
      as [rt s3|why] eqn:Hlook; [|discriminate].
    destruct (hostRoundTripper_Done _ _ _ _ Hlook) as (Hin & _).
    unfold mbind, M_bind, record, in_world. cbn.
    destruct (Transport_RoundTrip rt (new_loc (requests (world s))) (world s3))
      as [res' w'] eqn:Hd.
    intros [= <- <-]. exists ips, e1, ip, rt, s3. rewrite Hd. cbn.
    repeat (split; [done|]). done.
  - left. rewrite (RoundTrip_failure s req r pu u err e1 Hvalid Hres) in Hrun.
    injection Hrun as <- <-. by exists err, e1.
Qed.

(** X7. A request that is nil, whose URL is nil, or whose URL pointer
    dangles makes [RoundTrip] panic on the dereference in its first line,
    whatever the resolver, the cache and the registry hold. *)
Theorem RoundTrip_invalid_panics s req :
  requests (world s) !! req = None
  ∨ (∃ r, requests (world s) !! req = Some r
          ∧ (http.URL r = None
             ∨ ∃ pu, http.URL r = Some pu ∧ urls (world s) !! pu = None)) →
  RoundTrip req s = Panic "invalid memory address or nil pointer dereference".
Proof.
  intros Hbad. apply RoundTrip_panics_unless_valid.
  intros r pu u (Hreq & Hurl & Hu).
  destruct Hbad as [Hnone|(r' & Hr' & [Hnil|(pu' & Hpu' & Hdangling)])].
  - congruence.
  - assert (r' = r) by congruence. subst r'. congruence.
  - assert (r' = r) by congruence. subst r'.
    assert (pu' = pu) by congruence. subst pu'. congruence.
Qed.

(** X5. [RoundTrip] returns in two ways and no other.  It returns
    exactly when the request is allocated and has a URL, and either the
    resolver fails, the result then being no response with the wrapped
    error and the state the one the failure leaves; or the resolver
    succeeds, the merged set is not empty and the registry lookup returns,
    the result and the world then being the delegated transport's, for
    the transport stored under the hostname.  Everything else panics. *)
Theorem RoundTrip_returns_two_ways s req res s' :
  RoundTrip req s = Done res s'
  ↔ ∃ r pu u,
      valid_request (world s) req r pu u
      ∧ ((∃ err e1,
            LookupIP (url.Hostname u) (ext (world s)) = (inr err, e1)
            ∧ res = (None, Some (Errorf_w "s3transport: lookup ip: " err))
            ∧ s' = failed s (url.Hostname u) e1 (http.Body r))
         ∨ (∃ ips e1 ip rt s3,
              LookupIP (url.Hostname u) (ext (world s)) = (inl ips, e1)
              ∧ merged_ips (resolved s (url.Hostname u) e1) (url.Hostname u) ips
                !! Z.to_nat (selected_index (resolved s (url.Hostname u) e1)
                               (url.Hostname u) ips) = Some ip
              ∧ hostRoundTripper (url.Hostname u)
                  (rewritten (resolved s (url.Hostname u) e1) r u
                     (url.Hostname u) ips ip) = Done rt s3
              ∧ hostRTs (self s3) !! url.Hostname u = Some rt
              ∧ res = (Transport_RoundTrip rt (new_loc (requests (world s)))
                         (world s3)).1
              ∧ s' = {| self := self s3;
                        world := (Transport_RoundTrip rt
                                    (new_loc (requests (world s))) (world s3)).2;
                        calls := calls s3
                          ++ [CallRoundTrip rt (new_loc (requests (world s)))] |})).
Proof.
  split; [apply RoundTrip_Done_cases|].
  intros (r & pu & u & Hvalid
          & [(err & e1 & Hres & -> & ->)
            |(ips & e1 & ip & rt & s3 & Hres & Hip & Hlook & _ & -> & ->)]).
  - by apply (RoundTrip_failure s req r pu u).
  - rewrite (RoundTrip_success s req r pu u ips e1 Hvalid Hres).
    set (host := url.Hostname u) in *. set (s1 := resolved s host e1) in *.
    assert (Hvalid1 : valid_request (world s1) req r pu u) by exact Hvalid.
    assert (Hne : merged_ips s1 host ips ≠ []).
    { intros Hm. rewrite Hm in Hip. by rewrite lookup_nil in Hip. }
    destruct (rewrite_request_spec s1 req r pu u host ips Hvalid1 Hne)
      as (ip' & Hip' & Hrw).
    assert (ip' = ip) by congruence. subst ip'.
    unfold mbind at 1, M_bind at 1. rewrite Hrw.
    unfold mbind at 1, M_bind at 1. rewrite Hlook.
    unfold mbind, M_bind, record, in_world. cbn.
    by destruct (Transport_RoundTrip rt (new_loc (requests (world s))) (world s3)).
Qed.

(** A request that returns takes nothing out of the registry and keeps
    the log in step with it. *)
Lemma RoundTrip_keeps s req res s' :
  RoundTrip req s = Done res s' →
  (∀ k p, hostRTs (self s) !! k = Some p → hostRTs (self s') !! k = Some p)
  ∧ factory (self s') = factory (self s)
  ∧ (calls_match_registry s → calls_match_registry s').
Proof.
  intros Hrun.
  destruct (RoundTrip_Done_cases s req res s' Hrun)
    as (r & pu & u & _ & [(err & e1 & _ & _ & ->)
                         |(ips & e1 & ip & rt & s3 & _ & _ & Hlook & _ & _ & ->)]).
  - split; [done|]. split; [done|]. intros Hm k.
    unfold failed. cbn [self calls hostRTs].
    rewrite factory_calls_for_app, Hm.
    destruct (http.Body r); unfold factory_calls_for; cbn [List.filter
      is_factory_call_for length]; lia.
  - destruct (hostRoundTripper_Done _ _ _ _ Hlook) as (_ & Hkeep & Hf & _ & Hm3).
    split; [exact Hkeep|]. split; [exact Hf|]. intros Hm k.
    cbn [self calls hostRTs]. rewrite factory_calls_for_app.
    change (factory_calls_for k [CallRoundTrip rt (new_loc (requests (world s)))])
      with 0%nat.
    rewrite Nat.add_0_r. apply Hm3. intros k'.
    unfold rewritten, resolved. cbn [self calls hostRTs].
    rewrite !factory_calls_for_app.
    change (factory_calls_for k' [CallLookupIP (url.Hostname u)]) with 0%nat.
    change (factory_calls_for k' [CallAddAndGet (url.Hostname u) ips]) with 0%nat.
    rewrite !Nat.add_0_r. apply Hm.
Qed.

(** X6. Over any run of requests that returns, whatever mix of hosts,
    failed resolutions and delegated errors it holds: there is one result
    per request, no transport in the registry is replaced or removed, and
    the log holds one factory call for each host in the registry and none
    for any other host, so never two for one host. *)
Theorem RoundTrip_all_keeps_registry reqs : ∀ s rs s',
  calls_match_registry s →
  RoundTrip_all reqs s = Done rs s' →
  length rs = length reqs
  ∧ (∀ k p, hostRTs (self s) !! k = Some p → hostRTs (self s') !! k = Some p)
  ∧ calls_match_registry s'
  ∧ (∀ k, factory_calls_for k (calls s') ≤ 1)%nat.
Proof.
  assert (Hle : ∀ s : State E, calls_match_registry s →
                  ∀ k, (factory_calls_for k (calls s) ≤ 1)%nat).
  { intros s Hm k. rewrite Hm. destruct (hostRTs (self s) !! k); lia. }
  induction reqs as [|req reqs IH]; intros s rs s' Hm.
  - cbn. intros [= <- <-]. repeat split; auto.
  - cbn. unfold mbind at 1, M_bind at 1.
    destruct (RoundTrip req s) as [res s1|why] eqn:Hrun; [|discriminate].
    destruct (RoundTrip_keeps s req res s1 Hrun) as (Hkeep1 & _ & Hm1).
    unfold mbind at 1, M_bind at 1.
    destruct (RoundTrip_all reqs s1) as [more s2|why] eqn:Hrest; [|discriminate].
    intros [= <- <-].
    destruct (IH s1 more s2 (Hm1 Hm) Hrest) as (Hlen & Hkeep2 & Hm2 & _).
    split; [cbn; by rewrite Hlen|]. split; [auto|]. split; [done|].
    by apply Hle.
Qed.

(** X8. Of the calls the log records (the resolver, [AddAndGet], the
    factory, a body's Close, the delegated RoundTrip), a request that is
    dispatched makes exactly these, in this order: the resolver once,
    [AddAndGet] once, the factory if and only if the registry holds
    nothing for the hostname, the delegated transport once.  So the
    resolver is consulted whatever the cache holds, nothing is retried and
    no body is closed.  The clock and the random source, which the log
    does not record, are stepped in between, once each: the collaborator
    state that the registry lookup starts from is the resolver's, advanced
    by one [time.Now] and then one draw for [rand.Intn]; the delegated
    transport starts from that state on a hit, and from what the factory
    made of it on a miss. *)
Theorem RoundTrip_calls_in_order s req r pu u ips e1 :
  valid_request (world s) req r pu u →
  LookupIP (url.Hostname u) (ext (world s)) = (inl ips, e1) →
  ips ≠ [] →
  factory_allocates (factory (self s)) →
  let host := url.Hostname u in
  let hostReq := new_loc (requests (world s)) in
  let s1 := resolved s host e1 in
  let n := Z.of_nat (length (merged_ips s1 host ips)) in
  ∃ res rt s' ip s3,
    RoundTrip req s = Done res s'
    ∧ hostRTs (self s') !! host = Some rt
    ∧ calls s'
      = (calls s ++ [CallLookupIP host; CallAddAndGet host ips]
           ++ match hostRTs (self s) !! host with
              | Some _ => []
              | None => [CallFactory host rt]
              end
           ++ [CallRoundTrip rt hostReq])%list
    ∧ hostRoundTripper host (rewritten s1 r u host ips ip) = Done rt s3
    ∧ ext (world (rewritten s1 r u host ips ip))
      = (rand_draw n (time_Now e1).2).2
    ∧ ext (world s3)
      = match hostRTs (self s) !! host with
        | Some _ => (rand_draw n (time_Now e1).2).2
        | None => ext (factory (self s)
                         (world (rewritten s1 r u host ips ip))).2
        end
    ∧ res = (Transport_RoundTrip rt hostReq (world s3)).1
    ∧ world s' = (Transport_RoundTrip rt hostReq (world s3)).2.
Proof.
  intros Hvalid Hres Hips Halloc host hostReq s1 n.
  destruct (RoundTrip_dispatch s req r pu u ips e1 Hvalid Hres
              (merged_ips_nonempty _ _ _ Hips) Halloc)
    as (ip & rt & s3 & _ & Hlook & Hin & Hrun & Hcase & _).
  fold host hostReq s1 in Hrun, Hcase, Hin, Hlook.
  destruct (Transport_RoundTrip rt hostReq (world s3)) as [res w'] eqn:Hd.
  exists res, rt,
    {| self := self s3; world := w';
       calls := calls s3 ++ [CallRoundTrip rt hostReq] |}, ip, s3.
  split.
  { rewrite Hrun. unfold in_world, dispatching. cbn. by rewrite Hd. }
  split; [exact Hin|]. cbn [calls world].
  destruct (hostRTs (self s) !! host) eqn:Hh.
  - destruct Hcase as [Hrt Hs3]. split; [rewrite Hs3; cbn; by rewrite <- !app_assoc|].
    split; [exact Hlook|]. split; [reflexivity|].
    split; [by rewrite Hs3|]. rewrite Hd. by split.
  - destruct Hcase as [-> _]. split; [cbn; by rewrite <- !app_assoc|].
    split; [exact Hlook|]. split; [reflexivity|].
    split; [|rewrite Hd; by split].
    destruct (hostRoundTripper_miss_frame (rewritten s1 r u host ips ip) host)
      as (sb & _ & _ & _ & Hrunb & _ & _ & _ & _ & _ & _ & _ & _ & _ & _ & _
          & He & _); [exact Hh|exact Halloc|].
    rewrite Hlook in Hrunb. injection Hrunb as _ <-. exact He.
Qed.

Lemma splitHostPort_no_colon (hp : string) :
  Strings.LastIndexByte hp ":" = (-1)%Z →
  url.splitHostPort hp = (url.unbracket hp, "").
Proof. intros Hc. unfold url.splitHostPort. rewrite Hc. reflexivity. Qed.

(** X9. The URL that is dispatched holds the selected IP's string as its
    Host, as it is.  Read back by [URL.Hostname], a string without a colon
    (an IPv4 address) gives the address and no port; a string that ends in
    a colon and digits, as an unbracketed IPv6 address does, is cut at
    that colon: the hostname loses the last group and the group becomes
    the port. *)
Theorem dispatched_URL_reads_back s req r pu u ips e1 :
  valid_request (world s) req r pu u →
  LookupIP (url.Hostname u) (ext (world s)) = (inl ips, e1) →
  ips ≠ [] →
  factory_separate (factory (self s)) →
  let host := url.Hostname u in
  let hostReq := new_loc (requests (world s)) in
  let hostURL := new_loc (urls (world s)) in
  ∃ ip rt s3 u',
    RoundTrip req s
    = in_world (Transport_RoundTrip rt hostReq) (dispatching s3 rt hostReq)
    ∧ ip ∈ merged_ips (resolved s host e1) host ips
    ∧ urls (world s3) !! hostURL = Some u'
    ∧ url.Host u' = IP_String ip
    ∧ (Strings.LastIndexByte (IP_String ip) ":" = (-1)%Z →
       url.Hostname u' = url.unbracket (IP_String ip) ∧ url.Port u' = "")
    ∧ (∀ a d, IP_String ip = a ++ ":" ++ d →
              Strings.all_bytes url.is_digit d = true →
              url.Hostname u' = url.unbracket a ∧ url.Port u' = d).
Proof.
  intros Hvalid Hres Hips Hsep host hostReq hostURL.
  destruct (RoundTrip_dispatch s req r pu u ips e1 Hvalid Hres
              (merged_ips_nonempty _ _ _ Hips)
              (factory_separate_allocates _ Hsep))
    as (ip & rt & s3 & Hip & _ & _ & Hrun & _ & Hframe).
  destruct (Hframe Hsep) as (_ & Hu & _).
  exists ip, rt, s3, (url.set_Host u (IP_String ip)).
  split; [exact Hrun|]. split; [by eapply list_elem_of_lookup_2|]. split.
  { rewrite Hu. cbn. fold hostURL. by rewrite lookup_insert_eq. }
  split; [reflexivity|]. unfold url.Hostname, url.Port. cbn [url.Host url.set_Host].
  split.
  - intros Hc. by rewrite (splitHostPort_no_colon _ Hc).
  - intros a d Ha Hd. by rewrite Ha, (splitHostPort_port a d Hd).
Qed.

End Proofs.

(** * The model at work on the concrete environment *)

Section Witnesses.

Import Example.
#[local] Existing Instance env.

Lemma hostRoundTripper_binds_ServerName_witness :
  factory_separate bare_factory
  ∧ ∃ rts s rt s',
      lookup_all (E:=Z) ["a.example.com"; bucket] (New bare_factory w0) = Done rts s
      ∧ hostRoundTripper (E:=Z) bucket s = Done rt s'
      ∧ ServerName_of (world s') rt = Some bucket
      ∧ registry_bound s'.
Proof.
  pose proof (Transport_Clone_separate (E:=Z)
                (http.set_TLSClientConfig (httpTransport (H:=env)) None) None) as Hsep.
  split; [exact Hsep|].
  destruct (hostRoundTripper_binds_ServerName bare_factory w0
              ["a.example.com"; bucket] bucket Hsep)
    as (rts & s & rt & s' & H1 & H2 & H3 & H4 & _).
  exists rts, s, rt, s'. split; [exact H1|]. split; [exact H2|].
  split; [exact H3|exact H4].
Defined.

Lemma hostRoundTripper_once_witness :
  factory_allocates default_factory
  ∧ ∃ rt s' tr' rts2 s2,
      hostRoundTripper (E:=Z) bucket (New default_factory w0) = Done rt s'
      ∧ rt = (default_factory w0).1
      ∧ transports (world s') !! rt = Some tr'
      ∧ ServerName_of (world s') rt = Some bucket
      ∧ calls s' = [CallFactory bucket rt]
      ∧ hostRoundTripper (E:=Z) bucket s' = Done rt s'
      ∧ lookup_all (E:=Z) ["other.example.com"] s' = Done rts2 s2
      ∧ hostRoundTripper (E:=Z) bucket s2 = Done rt s2
      ∧ (∀ k, factory_calls_for k (calls s2) ≤ 1)%nat.
Proof.
  pose proof (factory_separate_allocates _
                (Transport_Clone_separate (E:=Z) (httpTransport (H:=env))
                   (Some (tls.mkConfig "")))) as Halloc.
  split; [exact Halloc|].
  destruct (hostRoundTripper_once default_factory w0 []
              ["other.example.com"] bucket Halloc)
    as (rts & s & rt & s' & rts2 & s2 & H1 & H2 & _ & Hcase & H4 & H5 & H6 & _
        & H8).
  change (Done [] (New default_factory w0) = Done rts s) in H1.
  injection H1 as <- <-.
  change (hostRTs (self (New default_factory w0)) !! bucket)
    with (@None loc) in Hcase.
  destruct Hcase as (Hrt & Hcalls & _ & tr & tr' & _ & Htr' & _ & Hname & _).
  exists rt, s', tr', rts2, s2. split; [exact H2|]. split; [exact Hrt|].
  split; [exact Htr'|]. split; [exact Hname|]. split; [exact Hcalls|].
  split; [exact H4|]. split; [exact H5|]. split; [exact H6|exact H8].
Defined.

Lemma RoundTrip_resolution_failure_witness :
  valid_request (world d0) 3%positive r3 3%positive u3
  ∧ LookupIP (url.Hostname u3) (ext (world d0))
    = (inr (ErrOpaque "no such host"), 1%Z)
  ∧ ∃ s',
      RoundTrip (H:=env) 3%positive d0
      = Done (None, Some (Errorf_w "s3transport: lookup ip: "
                            (ErrOpaque "no such host"))) s'
      ∧ 8%positive ∈ closed (world s')
      ∧ self s' = self d0
      ∧ calls s' = [CallLookupIP "nowhere.invalid"; CallClose 8%positive].
Proof.
  assert (Hv : valid_request (world d0) 3%positive r3 3%positive u3)
    by (repeat split; vm_compute; reflexivity).
  assert (Hl : LookupIP (url.Hostname u3) (ext (world d0))
               = (inr (ErrOpaque "no such host"), 1%Z))
    by (vm_compute; reflexivity).
  split; [exact Hv|]. split; [exact Hl|].
  destruct (RoundTrip_resolution_failure (Env0:=env) d0 3%positive r3 3%positive u3
              (ErrOpaque "no such host") 1%Z Hv Hl)
    as (s' & H1 & _ & H3 & H4 & _ & _ & _ & _ & _ & H10).
  exists s'. split; [exact H1|]. split; [by apply H3|]. split; [exact H4|].
  exact H10.
Defined.

Lemma request1_valid : valid_request (world d0) 1%positive get 1%positive u1.
Proof. repeat split; vm_compute; reflexivity. Qed.

Lemma request1_resolves :
  LookupIP (url.Hostname u1) (ext (world d0)) = (inl [ipA; ipB], 1%Z).
Proof. vm_compute; reflexivity. Qed.

Lemma default_factory_separate : factory_separate (factory (self d0)).
Proof.
  exact (Transport_Clone_separate (E:=Z) httpTransport (Some (tls.mkConfig ""))).
Qed.

Lemma RoundTrip_rewrites_a_clone_witness :
  valid_request (world d0) 1%positive get 1%positive u1
  ∧ LookupIP (url.Hostname u1) (ext (world d0)) = (inl [ipA; ipB], 1%Z)
  ∧ [ipA; ipB] ≠ []
  ∧ factory_separate (factory (self d0))
  ∧ ∃ ip rt s3 r',
      RoundTrip 1%positive d0
      = in_world (Transport_RoundTrip rt (new_loc (requests (world d0))))
          (dispatching s3 rt (new_loc (requests (world d0))))
      ∧ requests (world s3) !! new_loc (requests (world d0)) = Some r'
      ∧ http.Host r' = "bucket.example.com"
      ∧ (url.Host <$> urls (world s3) !! new_loc (urls (world d0)))
        = Some (dotted ip)
      ∧ requests (world s3) !! 1%positive = Some get
      ∧ urls (world s3) !! 1%positive = Some u1.
Proof.
  split; [exact request1_valid|]. split; [exact request1_resolves|].
  split; [discriminate|]. split; [exact default_factory_separate|].
  destruct (RoundTrip_rewrites_a_clone d0 1%positive get 1%positive u1
              [ipA; ipB] 1%Z request1_valid request1_resolves
              ltac:(discriminate) default_factory_separate)
    as (ip & rt & s3 & r' & H1 & _ & _ & _ & H5 & H6 & _ & _ & _ & _ & H11
        & H12 & H13 & _).
  exists ip, rt, s3, r'. split; [exact H1|]. split; [exact H5|].
  split; [exact H6|]. split; [rewrite H11; reflexivity|].
  split; [exact H12|exact H13].
Defined.

Lemma RoundTrip_selects_uniformly_witness :
  valid_request (world d0) 1%positive get 1%positive u1
  ∧ [ipA; ipB] ≠ []
  ∧ factory_separate (factory (self d0))
  ∧ (∀ ω, ω ∈ [0%Z; 1%Z] → (LookupIP (url.Hostname u1) ω).1 = inl [ipA; ipB])
  ∧ Intn_uniform (url.Hostname u1)
      (Z.of_nat (length (merged_ips d0 (url.Hostname u1) [ipA; ipB])))
      [0%Z; 1%Z] 1
  ∧ ∃ sel : Z → IP,
      length (filter (λ ω, sel ω = ipA) [0%Z; 1%Z]) = 1%nat
      ∧ length (filter (λ ω, sel ω = ipB) [0%Z; 1%Z]) = 1%nat
      ∧ ∀ ω, ω ∈ [0%Z; 1%Z] →
          ∃ rt s3,
            RoundTrip 1%positive (with_seed d0 ω)
            = in_world (Transport_RoundTrip rt (new_loc (requests (world d0))))
                (dispatching s3 rt (new_loc (requests (world d0))))
            ∧ (url.Host <$> urls (world s3) !! new_loc (urls (world d0)))
              = Some (dotted (sel ω)).
Proof.
  assert (Hres : ∀ ω, ω ∈ [0%Z; 1%Z] →
                   (LookupIP (url.Hostname u1) ω).1 = inl [ipA; ipB]).
  { intros ω _. reflexivity. }
  assert (Hm : merged_ips d0 (url.Hostname u1) [ipA; ipB] = [ipB; ipA])
    by (vm_compute; reflexivity).
  assert (Hunif : Intn_uniform (url.Hostname u1)
            (Z.of_nat (length (merged_ips d0 (url.Hostname u1) [ipA; ipB])))
            [0%Z; 1%Z] 1).
  { rewrite Hm. intros j Hj. cbn in Hj.
    assert (Hcases : j = 0%Z ∨ j = 1%Z) by lia.
    destruct Hcases as [-> | ->]; vm_compute; reflexivity. }
  split; [exact request1_valid|]. split; [discriminate|].
  split; [exact default_factory_separate|]. split; [exact Hres|].
  split; [exact Hunif|].
  destruct (RoundTrip_selects_uniformly d0 1%positive get 1%positive u1
              [ipA; ipB] [0%Z; 1%Z] 1 request1_valid ltac:(discriminate)
              default_factory_separate Hres Hunif)
    as (sel & Hall & Helem & _ & Hcount & _).
  exists sel. split.
  { apply Hcount. apply (proj2 (Helem ipA)). right. apply list_elem_of_here. }
  split.
  { apply Hcount. apply (proj2 (Helem ipB)). right.
    apply list_elem_of_further, list_elem_of_here. }
  intros ω Hω. destruct (Hall ω Hω) as (rt & s3 & Hrun & _ & _ & _ & Hu).
  exists rt, s3. split; [exact Hrun|exact Hu].
Defined.

Lemma RoundTrip_returns_delegated_result_witness :
  valid_request (world d0) 1%positive get 1%positive u1
  ∧ LookupIP (url.Hostname u1) (ext (world d0)) = (inl [ipA; ipB], 1%Z)
  ∧ [ipA; ipB] ≠ []
  ∧ factory_allocates (factory (self d0))
  ∧ ∃ s', RoundTrip 1%positive d0
          = Done (Some (http.mkResponse 200 None), None) s'.
Proof.
  pose proof (factory_separate_allocates _ default_factory_separate) as Halloc.
  split; [exact request1_valid|]. split; [exact request1_resolves|].
  split; [discriminate|]. split; [exact Halloc|].
  destruct (RoundTrip_returns_delegated_result d0 1%positive get 1%positive u1
              [ipA; ipB] 1%Z request1_valid request1_resolves
              ltac:(discriminate) Halloc)
    as (ip & rt & s3 & _ & _ & _ & H4).
  eexists. exact H4.
Defined.

Lemma selection_in_bounds_iff_nonempty_witness :
  valid_request (world d0) 1%positive get 1%positive u1
  ∧ LookupIP (url.Hostname u1) (ext (world d0)) = (inl [ipA; ipB], 1%Z)
  ∧ ∃ ip,
      merged_ips (resolved d0 (url.Hostname u1) 1%Z) (url.Hostname u1) [ipA; ipB]
      !! Z.to_nat (selected_index (resolved d0 (url.Hostname u1) 1%Z)
                     (url.Hostname u1) [ipA; ipB]) = Some ip.
Proof.
  split; [exact request1_valid|]. split; [exact request1_resolves|].
  destruct (selection_in_bounds_iff_nonempty d0 1%positive get 1%positive u1
              [ipA; ipB] 1%Z request1_valid request1_resolves) as (H1 & _ & _).
  assert (Hne : [ipA; ipB] ≠ []) by discriminate.
  destruct (H1 (merged_ips_nonempty (resolved d0 (url.Hostname u1) 1%Z)
                  (url.Hostname u1) [ipA; ipB] Hne))
    as (ip & _ & Hip & _).
  exists ip. exact Hip.
Defined.


Lemma httpTransport_IdleConnTimeout_witness :
  int64 (2 * expireLoopEvery)
  ∧ int64 (expireAfter + 2 * expireLoopEvery)
  ∧ http.IdleConnTimeout httpTransport = (7 * Second)%Z.
Proof.
  assert (H2 : int64 (2 * expireLoopEvery))
    by (vm_compute; split; [discriminate|reflexivity]).
  assert (Hs : int64 (expireAfter + 2 * expireLoopEvery))
    by (vm_compute; split; [discriminate|reflexivity]).
  split; [exact H2|]. split; [exact Hs|].
  destruct (httpTransport_IdleConnTimeout H2 Hs) as (H & _). exact H.
Defined.

(** ** Runs *)

Example Hostname_with_port :
  url.Hostname (url.mkURL "https" "bucket.example.com:8443" "/k" "")
  = "bucket.example.com".
Proof. reflexivity. Qed.

Example Hostname_without_port :
  url.Hostname (url.mkURL "https" "bucket.example.com" "/k" "")
  = "bucket.example.com".
Proof. reflexivity. Qed.

Example Hostname_ipv6_literal :
  url.Hostname (url.mkURL "https" "[::1]:443" "/" "") = "::1".
Proof. reflexivity. Qed.

(** Requests to ports 8443 and 9000 of one host: one factory call, one
    transport, one cache key; each dispatched URL holds a bare IP. *)
Example two_ports_one_transport :
  match RoundTrip_twice 1%positive 2%positive d0 with
  | Done res s =>
      Some (res, calls s, map_to_list (hostRTs (self s)),
            dom (expiring.elems (hostIPs (self s))),
            url.Host <$> urls (world s) !! 5%positive,
            url.Host <$> urls (world s) !! 6%positive,
            ServerName_of (world s) 2%positive)
  | Panic _ => None
  end
  = Some (Some (http.mkResponse 200 None), None,
          [CallLookupIP bucket; CallAddAndGet bucket [ipA; ipB];
           CallFactory bucket 2%positive; CallRoundTrip 2%positive 5%positive;
           CallLookupIP bucket; CallAddAndGet bucket [ipA; ipB];
           CallRoundTrip 2%positive 6%positive],
          [(bucket, 2%positive)], {[bucket]},
          Some "203.0.113.6", Some "203.0.113.5", Some bucket).
Proof. vm_compute. reflexivity. Qed.

(** A resolver that succeeds with no IP at all makes [RoundTrip] panic. *)
Example empty_resolution_panics :
  RoundTrip 4%positive d0 = Panic "invalid argument to Intn".
Proof. vm_compute. reflexivity. Qed.

(** A factory that hands out one Transport for every host breaks the
    binding: the transport stored under the first host verifies against
    the second. *)
Example shared_factory_rebinds :
  (λ s, (hostRTs (self s) !! "a.example.com",
         ServerName_of (world s) 1%positive))
    <$> lookup_twice shared_factory "a.example.com" "b.example.com"
  = Some (Some 1%positive, Some "b.example.com").
Proof. vm_compute. reflexivity. Qed.

(** A sweep after the expiry window forgets what [AddAndGet] stored. *)
Example sweep_forgets :
  let m := (expiring.AddAndGet 0 bucket [ipA] expiring.empty).2 in
  expiring.elems (expiring.expireOnce (5 * Second) (6 * Second) m) !! bucket
  = None.
Proof.
  cbv zeta. eapply expireOnce_drops.
  - unfold expiring.AddAndGet. cbn. apply lookup_insert_eq.
  - cbn. reflexivity.
Qed.

End Witnesses.

(** * More runs on the concrete environment *)

Section MoreWitnesses.

Import Example Edge.
#[local] Existing Instance env.

Lemma hostRoundTripper_writes_witness :
  factory_allocates (factory (self d0))
  ∧ ∃ s' tr',
      hostRoundTripper bucket d0 = Done (factory (self d0) (world d0)).1 s'
      ∧ transports (world s') !! (factory (self d0) (world d0)).1 = Some tr'
      ∧ requests (world s') = requests (factory (self d0) (world d0)).2
      ∧ hostIPs (self s') = hostIPs (self d0).
Proof.
  pose proof (factory_separate_allocates _ default_factory_separate) as Halloc.
  split; [exact Halloc|].
  destruct (hostRoundTripper_writes d0 bucket Halloc)
    as (rt & s' & H1 & H2 & Hcase).
  change (hostRTs (self d0) !! bucket) with (@None loc) in Hcase.
  destruct Hcase as (-> & tr & tr' & c & _ & H3 & _ & _ & _ & _ & _ & _ & H10 & _).
  exists s', tr'. split; [exact H1|]. split; [exact H3|].
  split; [exact H10|exact H2].
Defined.

Lemma lookups_keep_existing_objects_witness :
  factory_separate bare_factory
  ∧ ∃ rts s,
      lookup_all (E:=Z) [bucket; "a.example.com"] (New bare_factory w0)
      = Done rts s
      ∧ (∀ q tr, transports w0 !! q = Some tr →
                 transports (world s) !! q = Some tr).
Proof.
  pose proof (Transport_Clone_separate (E:=Z)
                (http.set_TLSClientConfig httpTransport None) None) as Hsep.
  split; [exact Hsep|].
  destruct (lookups_keep_existing_objects bare_factory w0
              [bucket; "a.example.com"] Hsep) as (rts & s & H1 & H2 & _).
  exists rts, s. split; [exact H1|exact H2].
Defined.

Lemma shared_TLSClientConfig_rebinds_witness :
  hostRTs (self after_a) !! "b.example.com" = None
  ∧ hostRTs (self after_a) !! "a.example.com" = Some 1%positive
  ∧ transports (factory (self after_a) (world after_a)).2
      !! (factory (self after_a) (world after_a)).1 = Some httpTransport
  ∧ http.TLSClientConfig httpTransport = Some 1%positive
  ∧ is_Some (tlsConfigs (factory (self after_a) (world after_a)).2 !! 1%positive)
  ∧ transports (factory (self after_a) (world after_a)).2 !! 1%positive
    = Some httpTransport
  ∧ ∃ s',
      hostRoundTripper "b.example.com" after_a
      = Done (factory (self after_a) (world after_a)).1 s'
      ∧ ServerName_of (world s') 1%positive = Some "b.example.com"
      ∧ ¬ registry_bound s'.
Proof.
  assert (H1 : hostRTs (self after_a) !! "b.example.com" = None)
    by (vm_compute; reflexivity).
  assert (H2 : hostRTs (self after_a) !! "a.example.com" = Some 1%positive)
    by (vm_compute; reflexivity).
  assert (H3 : transports (factory (self after_a) (world after_a)).2
                 !! (factory (self after_a) (world after_a)).1
               = Some httpTransport) by (vm_compute; reflexivity).
  assert (H4 : http.TLSClientConfig (httpTransport (H:=env)) = Some 1%positive)
    by reflexivity.
  assert (H5 : is_Some (tlsConfigs (factory (self after_a) (world after_a)).2
                          !! 1%positive)).
  { exists (tls.mkConfig "a.example.com"). vm_compute. reflexivity. }
  assert (H6 : transports (factory (self after_a) (world after_a)).2
                 !! 1%positive = Some httpTransport) by (vm_compute; reflexivity).
  repeat (split; [assumption|]).
  destruct (shared_TLSClientConfig_rebinds after_a "a.example.com"
              "b.example.com" 1%positive httpTransport httpTransport 1%positive
              H1 H2 H3 H4 H5 H6 H4) as (s' & Hrun & _ & Hname & _ & Hb).
  exists s'. split; [exact Hrun|]. split; [exact Hname|exact Hb].
Defined.

Lemma RoundTrip_returns_two_ways_witness :
  ∃ res s',
    RoundTrip 3%positive d0 = Done res s'
    ∧ ∃ r pu u, valid_request (world d0) 3%positive r pu u.
Proof.
  destruct (RoundTrip 3%positive d0) as [res s'|why] eqn:Hrun.
  - exists res, s'. split; [reflexivity|].
    destruct (proj1 (RoundTrip_returns_two_ways d0 3%positive res s') Hrun)
      as (r & pu & u & Hv & _).
    exists r, pu, u. exact Hv.
  - exfalso.
    assert (Hc : completes (RoundTrip 3%positive d0) = true)
      by (vm_compute; reflexivity).
    rewrite Hrun in Hc. discriminate Hc.
Defined.

Lemma RoundTrip_all_keeps_registry_witness :
  calls_match_registry d0
  ∧ ∃ rs s',
      RoundTrip_all [1%positive; 3%positive; 2%positive] d0 = Done rs s'
      ∧ length rs = 3%nat
      ∧ (∀ k, factory_calls_for k (calls s') ≤ 1)%nat.
Proof.
  pose proof (New_calls_match_registry (E:=Z) (factory (self d0)) w0) as Hm.
  split; [exact Hm|].
  destruct (RoundTrip_all [1%positive; 3%positive; 2%positive] d0)
    as [rs s'|why] eqn:Hrun.
  - exists rs, s'. split; [reflexivity|].
    destruct (RoundTrip_all_keeps_registry
                [1%positive; 3%positive; 2%positive] d0 rs s' Hm Hrun)
      as (Hlen & _ & _ & Hle).
    split; [exact Hlen|exact Hle].
  - exfalso.
    assert (Hc : completes (RoundTrip_all [1%positive; 3%positive; 2%positive] d0)
                 = true) by (vm_compute; reflexivity).
    rewrite Hrun in Hc. discriminate Hc.
Defined.

Lemma RoundTrip_invalid_panics_witness :
  (∃ r, requests (world (Default w_nil)) !! 9%positive = Some r
        ∧ http.URL r = None)
  ∧ RoundTrip 9%positive (Default w_nil)
    = Panic "invalid memory address or nil pointer dereference".
Proof.
  assert (Hr : requests (world (Default (H:=env) w_nil)) !! 9%positive
               = Some no_url) by (vm_compute; reflexivity).
  split; [exists no_url; split; [exact Hr|reflexivity]|].
  apply (RoundTrip_invalid_panics (Default w_nil) 9%positive).
  right. exists no_url. split; [exact Hr|]. left. reflexivity.
Defined.

Lemma RoundTrip_calls_in_order_witness :
  valid_request (world d0) 1%positive get 1%positive u1
  ∧ LookupIP (url.Hostname u1) (ext (world d0)) = (inl [ipA; ipB], 1%Z)
  ∧ [ipA; ipB] ≠ []
  ∧ factory_allocates (factory (self d0))
  ∧ ∃ res rt s',
      RoundTrip 1%positive d0 = Done res s'
      ∧ calls s'
        = [CallLookupIP (url.Hostname u1);
           CallAddAndGet (url.Hostname u1) [ipA; ipB];
           CallFactory (url.Hostname u1) rt;
           CallRoundTrip rt (new_loc (requests (world d0)))].
Proof.
  pose proof (factory_separate_allocates _ default_factory_separate) as Halloc.
  split; [exact request1_valid|]. split; [exact request1_resolves|].
  split; [discriminate|]. split; [exact Halloc|].
  destruct (RoundTrip_calls_in_order d0 1%positive get 1%positive u1
              [ipA; ipB] 1%Z request1_valid request1_resolves
              ltac:(discriminate) Halloc)
    as (res & rt & s' & ip & s3 & Hrun & _ & Hcalls & _).
  exists res, rt, s'. split; [exact Hrun|exact Hcalls].
Defined.

End MoreWitnesses.

Section IPv6Witness.

Import Example Edge.
#[local] Existing Instance env6.

Lemma request1_valid6 : valid_request (world d6) 1%positive get 1%positive u1.
Proof. repeat split; vm_compute; reflexivity. Qed.

Lemma request1_resolves6 :
  LookupIP (url.Hostname u1) (ext (world d6)) = (inl [ip6], 1%Z).
Proof. vm_compute; reflexivity. Qed.

Lemma default_factory_separate6 : factory_separate (factory (self d6)).
Proof.
  exact (Transport_Clone_separate (E:=Z) httpTransport (Some (tls.mkConfig ""))).
Qed.

Lemma dispatched_URL_reads_back_witness :
  valid_request (world d6) 1%positive get 1%positive u1
  ∧ LookupIP (url.Hostname u1) (ext (world d6)) = (inl [ip6], 1%Z)
  ∧ [ip6] ≠ []
  ∧ factory_separate (factory (self d6))
  ∧ ∃ rt s3 u',
      RoundTrip 1%positive d6
      = in_world (Transport_RoundTrip rt (new_loc (requests (world d6))))
          (dispatching s3 rt (new_loc (requests (world d6))))
      ∧ urls (world s3) !! new_loc (urls (world d6)) = Some u'
      ∧ url.Host u' = "2001:db8::1"
      ∧ url.Hostname u' = "2001:db8:"
      ∧ url.Port u' = "1".
Proof.
  split; [exact request1_valid6|]. split; [exact request1_resolves6|].
  split; [discriminate|]. split; [exact default_factory_separate6|].
  destruct (dispatched_URL_reads_back d6 1%positive get 1%positive u1
              [ip6] 1%Z request1_valid6 request1_resolves6
              ltac:(discriminate) default_factory_separate6)
    as (ip & rt & s3 & u' & Hrun & Hin & Hu & Hhost & _ & Hcut).
  assert (Hm : merged_ips (resolved d6 (url.Hostname u1) 1%Z) (url.Hostname u1)
                 [ip6] = [ip6]) by (vm_compute; reflexivity).
  rewrite Hm in Hin. apply list_elem_of_singleton in Hin. subst ip.
  destruct (Hcut "2001:db8:" "1" eq_refl eq_refl) as [Hname Hport].
  exists rt, s3, u'. split; [exact Hrun|]. split; [exact Hu|].
  split; [exact Hhost|]. split; [exact Hname|exact Hport].
Defined.

End IPv6Witness.
